(** * Download-link extraction and file retrieval (taska frontend)

    A shallow embedding of [src/utils/templateDownloadUtils.js] and of the
    link handling inlined in [src/components/SmartDashboard.jsx], with the
    properties of the extraction, sanitizing, filename and download code.

    JavaScript strings are sequences of UTF-16 code units; none of the
    regular expressions of the source carries the [u] flag, so matching is
    done code unit by code unit. *)

From Stdlib Require Import ZArith String Ascii DecimalString.
From stdpp Require Import gmap list sorting.

Local Open Scope Z_scope.

Abbreviation length := Datatypes.length.

(** ** Strings *)

(** A JavaScript string: its UTF-16 code units. *)
Abbreviation jsstring := (list Z).

(** String literals of the source are written [js "..."]: the UTF-8 bytes of
    the literal are decoded to code points and encoded as UTF-16. *)
Fixpoint utf8_decode (bs : list Z) : list Z :=
  match bs with
  | [] => []
  | b0 :: t0 =>
    if b0 <? 0x80 then b0 :: utf8_decode t0
    else
      match t0 with
      | [] => []
      | b1 :: t1 =>
        if b0 <? 0xE0 then
          Z.lor (Z.shiftl (Z.land b0 0x1F) 6) (Z.land b1 0x3F) :: utf8_decode t1
        else
          match t1 with
          | [] => []
          | b2 :: t2 =>
            if b0 <? 0xF0 then
              Z.lor (Z.shiftl (Z.land b0 0x0F) 12)
                (Z.lor (Z.shiftl (Z.land b1 0x3F) 6) (Z.land b2 0x3F))
              :: utf8_decode t2
            else
              match t2 with
              | [] => []
              | b3 :: t3 =>
                Z.lor (Z.shiftl (Z.land b0 0x07) 18)
                  (Z.lor (Z.shiftl (Z.land b1 0x3F) 12)
                     (Z.lor (Z.shiftl (Z.land b2 0x3F) 6) (Z.land b3 0x3F)))
                :: utf8_decode t3
              end
          end
      end
  end.

Definition utf16_encode (cp : Z) : list Z :=
  if cp <? 0x10000 then [cp]
  else
    let v := cp - 0x10000 in
    [0xD800 + Z.shiftr v 10; 0xDC00 + Z.land v 0x3FF].

Definition js (s : string) : jsstring :=
  utf8_decode (List.map (fun a => Z.of_N (N_of_ascii a)) (list_ascii_of_string s))
    ≫= utf16_encode.
Arguments js s%_string.

(** [WhiteSpace] and [LineTerminator] code units: the members of the class
    escape [\s], and what [String.prototype.trim] strips. *)
Definition is_space (c : Z) : bool :=
  ((9 <=? c) && (c <=? 13)) || (c =? 32) || (c =? 0xA0) || (c =? 0x1680)
  || ((0x2000 <=? c) && (c <=? 0x200A))
  || (c =? 0x2028) || (c =? 0x2029) || (c =? 0x202F) || (c =? 0x205F)
  || (c =? 0x3000) || (c =? 0xFEFF).

(** [LineTerminator]: what [.] does not match. *)
Definition is_line_terminator (c : Z) : bool :=
  (c =? 10) || (c =? 13) || (c =? 0x2028) || (c =? 0x2029).

Fixpoint trimStart (s : jsstring) : jsstring :=
  match s with
  | c :: s' => if is_space c then trimStart s' else s
  | [] => []
  end.

Definition trimEnd (s : jsstring) : jsstring := rev (trimStart (rev s)).

(** [String.prototype.trim]. *)
Definition trim (s : jsstring) : jsstring := trimEnd (trimStart s).

(** [String.prototype.startsWith]. *)
Fixpoint startsWith (s p : jsstring) {struct p} : bool :=
  match p, s with
  | [], _ => true
  | a :: p', c :: s' => (c =? a) && startsWith s' p'
  | _ :: _, [] => false
  end.

(** [String.prototype.includes]. *)
Fixpoint includes (s p : jsstring) : bool :=
  startsWith s p || match s with [] => false | _ :: s' => includes s' p end.

(** [String.prototype.replace] with a string pattern and a replacement
    without [$]: the first occurrence only, the string unchanged when there
    is none. *)
Fixpoint replace_first (s p r : jsstring) : jsstring :=
  if startsWith s p then r ++ drop (length p) s
  else match s with
       | [] => []
       | c :: s' => c :: replace_first s' p r
       end.

(** The truthiness of an optional string: [undefined], [null] and the empty
    string are falsy. *)
Definition truthy (o : option jsstring) : bool :=
  match o with
  | Some (_ :: _) => true
  | _ => false
  end.

(** ** Regular expressions *)

(** [Canonicalize] of the ECMAScript pattern semantics without the [u] flag:
    the upper case of a single code unit.  The table is written out for Basic
    Latin, Latin-1 and schwa; the code units left as they are canonicalize to
    none of the characters of a pattern of this development, so that they
    match those patterns as in the host. *)
Definition canonicalize (c : Z) : Z :=
  if (0x61 <=? c) && (c <=? 0x7A) then c - 32
  else if (0xE0 <=? c) && (c <=? 0xFE) && negb (c =? 0xF7) then c - 32
  else if c =? 0xFF then 0x178
  else if c =? 0xB5 then 0x39C
  else if c =? 0x259 then 0x18F
  else c.

Definition char_eqb (ignoreCase : bool) (a c : Z) : bool :=
  if ignoreCase then canonicalize a =? canonicalize c else a =? c.

(** The members of a character class [[...]]. *)
Inductive class_item :=
| CChar (c : Z)
| CRange (lo hi : Z)
| CSpace.

Definition item_matches (ignoreCase : bool) (it : class_item) (c : Z) : bool :=
  match it with
  | CChar a => char_eqb ignoreCase a c
  | CRange lo hi =>
    if ignoreCase then
      existsb (fun a => char_eqb true a c) (List.map (fun k => lo + Z.of_nat k) (seq 0 (Z.to_nat (hi - lo + 1))))
    else (lo <=? c) && (c <=? hi)
  | CSpace => is_space c
  end.

(** The terms that match one code unit; the quantifiers of the source are all
    applied to such a term. *)
Inductive atom :=
| AChr (c : Z)
| ACls (negated : bool) (items : list class_item)
| ADot.

Definition atom_matches (ignoreCase : bool) (a : atom) (c : Z) : bool :=
  match a with
  | AChr x => char_eqb ignoreCase x c
  | ACls negated items => xorb negated (existsb (fun it => item_matches ignoreCase it c) items)
  | ADot => negb (is_line_terminator c)
  end.

Inductive regex :=
| Eps
| Atom (a : atom)
| Seq (r1 r2 : regex)
| Alt (r1 r2 : regex)
| Group (n : nat) (r : regex)
| Backref (n : nat)
| Star (greedy : bool) (a : atom)
| Bol
| Eol.

(** [a+], [a?] and [a{n,}] in terms of the constructors above. *)
Definition Plus (a : atom) : regex := Seq (Atom a) (Star true a).
Definition Opt (r : regex) : regex := Alt r Eps.
Fixpoint AtLeast (n : nat) (a : atom) : regex :=
  match n with
  | O => Star true a
  | S n' => Seq (Atom a) (AtLeast n' a)
  end.

(** A run of literal characters. *)
Fixpoint Lit (s : jsstring) : regex :=
  match s with
  | [] => Eps
  | [c] => Atom (AChr c)
  | c :: s' => Seq (Atom (AChr c)) (Lit s')
  end.

Fixpoint Seqs (rs : list regex) : regex :=
  match rs with
  | [] => Eps
  | [r] => r
  | r :: rs' => Seq r (Seqs rs')
  end.

(** The captures of a match in progress: group number and captured
    substring, the latest first. *)
Abbreviation captures := (list (nat * jsstring)).

Fixpoint cap_get (caps : captures) (n : nat) : option jsstring :=
  match caps with
  | [] => None
  | (k, s) :: caps' => if Nat.eqb k n then Some s else cap_get caps' n
  end.

Fixpoint prefix_matches (ignoreCase : bool) (p s : jsstring) : bool :=
  match p, s with
  | [], _ => true
  | a :: p', c :: s' => char_eqb ignoreCase a c && prefix_matches ignoreCase p' s'
  | _ :: _, [] => false
  end.

Section Matcher.
Context {R : Type}.

(** The backtracking matcher in continuation-passing style, as the pattern
    semantics of the language defines it: a matcher gets the position [i],
    the input from [i] on and the captures, and calls its continuation at
    each way to match, in the order of preference, until one succeeds. *)
Fixpoint star_greedy (p : Z → bool) (i : nat) (rest : jsstring)
    (k : nat → jsstring → option R) : option R :=
  match rest with
  | c :: rest' =>
    if p c then
      match star_greedy p (S i) rest' k with
      | Some x => Some x
      | None => k i rest
      end
    else k i rest
  | [] => k i rest
  end.

Fixpoint star_lazy (p : Z → bool) (i : nat) (rest : jsstring)
    (k : nat → jsstring → option R) : option R :=
  match k i rest with
  | Some x => Some x
  | None =>
    match rest with
    | c :: rest' => if p c then star_lazy p (S i) rest' k else None
    | [] => None
    end
  end.

Fixpoint rmatch (ignoreCase : bool) (r : regex) (i : nat) (rest : jsstring)
    (caps : captures) (k : nat → jsstring → captures → option R) : option R :=
  match r with
  | Eps => k i rest caps
  | Atom a =>
    match rest with
    | c :: rest' => if atom_matches ignoreCase a c then k (S i) rest' caps else None
    | [] => None
    end
  | Seq r1 r2 =>
    rmatch ignoreCase r1 i rest caps
      (fun j rest' caps' => rmatch ignoreCase r2 j rest' caps' k)
  | Alt r1 r2 =>
    match rmatch ignoreCase r1 i rest caps k with
    | Some x => Some x
    | None => rmatch ignoreCase r2 i rest caps k
    end
  | Group n r1 =>
    rmatch ignoreCase r1 i rest caps
      (fun j rest' caps' => k j rest' ((n, take (j - i)%nat rest) :: caps'))
  | Backref n =>
    match cap_get caps n with
    | None => k i rest caps
    | Some s =>
      if prefix_matches ignoreCase s rest
      then k (i + length s)%nat (drop (length s) rest) caps
      else None
    end
  | Star greedy a =>
    (if greedy then star_greedy else star_lazy) (atom_matches ignoreCase a) i rest
      (fun j rest' => k j rest' caps)
  | Bol => if Nat.eqb i 0 then k i rest caps else None
  | Eol => match rest with [] => k i rest caps | _ :: _ => None end
  end.
End Matcher.

(** A regular expression object: its pattern and flags.  The [lastIndex] of
    a global expression is threaded through the callers. *)
Record RegExp := {
  source : regex;
  global : bool;
  ignoreCase : bool
}.

(** The match array of [RegExp.prototype.exec]. *)
Record MatchArray := {
  m_index : nat;
  m_end : nat;
  m_0 : jsstring;
  m_groups : captures
}.

(** [match[n]]; [None] is [undefined]. *)
Definition match_get (mt : MatchArray) (n : nat) : option jsstring :=
  match n with
  | O => Some (m_0 mt)
  | S _ => cap_get (m_groups mt) n
  end.

(** The first position from [i] on where the pattern matches. *)
Fixpoint search (ic : bool) (r : regex) (i : nat) (rest : jsstring) : option MatchArray :=
  match rmatch ic r i rest []
          (fun j _ caps => Some {| m_index := i; m_end := j;
                                   m_0 := take (j - i)%nat rest; m_groups := caps |}) with
  | Some mt => Some mt
  | None =>
    match rest with
    | [] => None
    | _ :: rest' => search ic r (S i) rest'
    end
  end.

(** [RegExp.prototype.exec] on a global expression whose [lastIndex] is
    [lastIndex]: the match array or [null], and the new [lastIndex]. *)
Definition exec (re : RegExp) (s : jsstring) (lastIndex : nat) : option MatchArray * nat :=
  let start := if global re then lastIndex else O in
  if (length s <? start)%nat then (None, O)
  else
    match search (ignoreCase re) (source re) start (drop start s) with
    | None => (None, O)
    | Some mt => (Some mt, if global re then m_end mt else lastIndex)
    end.

(** [String.prototype.replace] with a global regular expression and a
    replacement without [$]: one scan from left to right; where the pattern
    matches at the current position the replacement is emitted and the
    matched code units are skipped ([skip] counts those still to skip), an
    empty match keeping the code unit it stands before. *)
Fixpoint replace_scan (ic : bool) (r : regex) (rep : jsstring) (i : nat)
    (rest : jsstring) (skip : nat) : jsstring :=
  match rest with
  | [] =>
    match skip with
    | O =>
      match rmatch ic r i [] [] (fun j _ _ => Some j) with
      | Some _ => rep
      | None => []
      end
    | S _ => []
    end
  | c :: rest' =>
    match skip with
    | S sk => replace_scan ic r rep (S i) rest' sk
    | O =>
      match rmatch ic r i rest [] (fun j _ _ => Some j) with
      | Some j =>
        if Nat.eqb j i then rep ++ c :: replace_scan ic r rep (S i) rest' O
        else rep ++ replace_scan ic r rep (S i) rest' (j - i - 1)
      | None => c :: replace_scan ic r rep (S i) rest' O
      end
    end
  end.

Definition replace_all (re : RegExp) (rep : jsstring) (s : jsstring) : jsstring :=
  replace_scan (ignoreCase re) (source re) rep O s O.

(** The members of a class given as literal characters. *)
Definition chars (s : string) : list class_item := List.map CChar (js s).
Arguments chars s%_string.

Definition lit (s : string) : regex := Lit (js s).
Arguments lit s%_string.

(** ** Results of the operations *)

Inductive js_error :=
| TypeError (message : jsstring)
| Error (message : jsstring).

(** [error.message] *)
Definition message_of (e : js_error) : jsstring :=
  match e with
  | TypeError m | Error m => m
  end.

(** What a call does: it returns, it throws, or the model ran out of steps
    before the call finished. *)
Inductive outcome (A : Type) :=
| Done (a : A)
| Throws (e : js_error)
| OutOfFuel.
Arguments Done {A} a.
Arguments Throws {A} e.
Arguments OutOfFuel {A}.

#[global] Instance outcome_bind : MBind outcome := λ A B f o,
  match o with
  | Done a => f a
  | Throws e => Throws e
  | OutOfFuel => OutOfFuel
  end.

(** [Array.prototype.sort] with a comparator: the sort is stable. *)
Section Sort.
Context {A : Type} (cmp : A → A → Z).

Fixpoint sort_insert (x : A) (l : list A) : list A :=
  match l with
  | [] => [x]
  | y :: l' => if 0 <? cmp x y then y :: sort_insert x l' else x :: l
  end.

Fixpoint Array_sort (l : list A) : list A :=
  match l with
  | [] => []
  | x :: l' => sort_insert x (Array_sort l')
  end.
End Sort.


(** ** The host: network, URLs and the page *)

Record Blob := {
  size : nat;
  blob_type : jsstring
}.

(** A response of [fetch]: [contentDisposition] is what
    [response.headers.get('Content-Disposition')] returns, [body] what
    [response.blob()] settles to. *)
Record Response := {
  status : nat;
  statusText : jsstring;
  contentDisposition : option jsstring;
  body : js_error + Blob
}.

(** [response.ok] *)
Definition ok (r : Response) : bool := (200 <=? status r)%nat && (status r <=? 299)%nat.

(** What the host answers: [fetch url] is what the request for [url] settles
    to, [pathname url] is [new URL(url).pathname] or the error it throws. *)
Record Host := {
  fetch : jsstring → js_error + Response;
  pathname : jsstring → js_error + jsstring
}.

(** What a call does to the world, in order. *)
Inductive event :=
| Fetch (url : jsstring)
| ConsoleLog (msg : jsstring)
| ConsoleError (label : jsstring) (e : js_error)
| CreateObjectURL (b : Blob)
| Click (download : jsstring) (b : Blob)
| SetTimeout (delay : nat)
| ToastSuccess (msg : jsstring)
| ToastError (msg : jsstring).

(** A computation with effects: the events it caused and its outcome. *)
Definition io (A : Type) : Type := list event * outcome A.

#[global] Instance io_ret : MRet io := λ A a, ([], Done a).
#[global] Instance io_bind : MBind io := λ A B f m,
  match m with
  | (tr, Done a) => let '(tr', o) := f a in (tr ++ tr', o)
  | (tr, Throws e) => (tr, Throws e)
  | (tr, OutOfFuel) => (tr, OutOfFuel)
  end.

Definition emit (e : event) : io unit := ([e], Done tt).
Definition throw {A} (e : js_error) : io A := ([], Throws e).
Definition settle {A} (x : js_error + A) : io A :=
  match x with
  | inl e => throw e
  | inr a => mret a
  end.

(** [try { m } catch (error) { handler }] *)
Definition try_catch {A} (m : io A) (handler : js_error → io A) : io A :=
  match m with
  | (tr, Throws e) => let '(tr', o) := handler e in (tr ++ tr', o)
  | other => other
  end.

(** A number in a template literal: its decimal digits. *)
Definition Number_toString (n : nat) : jsstring :=
  List.map (fun a => Z.of_N (N_of_ascii a))
    (list_ascii_of_string (NilZero.string_of_uint (Nat.to_uint n))).

(** [String.prototype.split] at a one-unit separator, and [Array.prototype.pop]
    on its result. *)
Fixpoint split_at (sep : Z) (s : jsstring) (cur : jsstring) : list jsstring :=
  match s with
  | [] => [rev cur]
  | c :: s' => if c =? sep then rev cur :: split_at sep s' [] else split_at sep s' (c :: cur)
  end.

Definition split (s : jsstring) (sep : Z) : list jsstring := split_at sep s [].

Definition pop (l : list jsstring) : jsstring := List.last l [].

(** The expression matched against the header: [filename], [[^;=\n]*], [=] and
    group 1, which is either group 2, one quote character (39 or 34), then
    [.*?] and [\2], or else [[^;\n]*]. *)
Definition filename_regex : RegExp :=
  {| source := Seqs [lit "filename"; Star true (ACls true [CChar 59; CChar 61; CChar 10]);
                     lit "=";
                     Group 1 (Alt (Seqs [Group 2 (Atom (ACls false [CChar 39; CChar 34]));
                                         Star false ADot; Backref 2])
                                  (Star true (ACls true [CChar 59; CChar 10])))];
     global := false; ignoreCase := false |}.

(** The class of the two quote characters, with the [g] flag. *)
Definition quotes_regex : RegExp :=
  {| source := Atom (ACls false [CChar 39; CChar 34]); global := true; ignoreCase := false |}.

(** [String.prototype.match] with an expression that is not global. *)
Definition String_match (s : jsstring) (re : RegExp) : option MatchArray :=
  fst (exec re s O).

(** The name found in a [Content-Disposition] header:
    [match[1]] with every quote character replaced by the empty string, when
    the header matches and [match[1]] is not empty. *)
Definition header_filename (contentDisposition : jsstring) : option jsstring :=
  match String_match contentDisposition filename_regex with
  | Some mt =>
    match match_get mt 1 with
    | Some ((_ :: _) as m1) => Some (replace_all quotes_regex [] m1)
    | _ => None
    end
  | None => None
  end.

Inductive link_type := markdown | emoji_direct | bold_direct | keyword_direct | direct.

(** ** [src/utils/templateDownloadUtils.js] *)

Module TemplateDownloadUtils.

Record LinkPattern := {
  regex_ : RegExp;
  textIndex : option nat;
  urlIndex : nat;
  p_type : link_type;
  defaultText : option jsstring;
  p_priority : Z
}.

Record DownloadLink := {
  text : jsstring;
  url : jsstring;
  type : link_type;
  fullMatch : jsstring;
  priority : Z
}.

(** [https?:\/\/] *)
Definition http_prefix : regex := Seqs [lit "http"; Opt (lit "s"); lit "://"].

(** [[\s]*:?[\s]*(https?:\/\/[^\s\n]+)], the tail of the three direct
    patterns, with the number of the group. *)
Definition direct_tail (n : nat) : regex :=
  Seqs [Star true (ACls false [CSpace]); Opt (lit ":"); Star true (ACls false [CSpace]);
        Group n (Seq http_prefix (Plus (ACls true [CSpace; CChar 10])))].

Definition DOWNLOAD_LINK_PATTERNS : list LinkPattern := [
  (* /\[([^\]]+)\]\((https?:\/\/[^\)]+)\)/g *)
  {| regex_ := {| source := Seqs [lit "["; Group 1 (Plus (ACls true (chars "]"))); lit "]("; 
                                  Group 2 (Seq http_prefix (Plus (ACls true (chars ")")))); lit ")"];
                  global := true; ignoreCase := false |};
     textIndex := Some 1%nat; urlIndex := 2; p_type := markdown;
     defaultText := None; p_priority := 1 |};
  (* /📥[^:]*:?[\s]*(https?:\/\/[^\s\n]+)/gi *)
  {| regex_ := {| source := Seqs [lit "📥"; Star true (ACls true (chars ":")); Opt (lit ":");
                                  Star true (ACls false [CSpace]);
                                  Group 1 (Seq http_prefix (Plus (ACls true [CSpace; CChar 10])))];
                  global := true; ignoreCase := true |};
     textIndex := None; urlIndex := 1; p_type := emoji_direct;
     defaultText := Some (js "Yüklə"); p_priority := 2 |};
  (* /\*\*[^*]*yükləmə[^*]*linki[^*]*\*\*[\s]*:?[\s]*(https?:\/\/[^\s\n]+)/gi *)
  {| regex_ := {| source := Seqs [lit "**"; Star true (ACls true (chars "*")); lit "yükləmə";
                                  Star true (ACls true (chars "*")); lit "linki";
                                  Star true (ACls true (chars "*")); lit "**";
                                  direct_tail 1];
                  global := true; ignoreCase := true |};
     textIndex := None; urlIndex := 1; p_type := bold_direct;
     defaultText := Some (js "Yükləmə linki"); p_priority := 3 |};
  (* /(yükləmə linki|download link|yüklə)[\s]*:?[\s]*(https?:\/\/[^\s\n]+)/gi *)
  {| regex_ := {| source := Seq (Group 1 (Alt (lit "yükləmə linki")
                                           (Alt (lit "download link") (lit "yüklə"))))
                                (direct_tail 2);
                  global := true; ignoreCase := true |};
     textIndex := Some 1%nat; urlIndex := 2; p_type := keyword_direct;
     defaultText := None; p_priority := 4 |}
].

(** [n || 99] on a number. *)
Definition or99 (n : Z) : Z := if n =? 0 then 99 else n.

(** The state of one call of [parseDownloadLinks]: the [links] array and
    the [processedUrls] set. *)
Record scan_state := {
  links : list DownloadLink;
  processedUrls : gset jsstring
}.

(** The body of the [while] loop for the match [mt]: the state after it
    ([continue] leaves the state as it is). *)
Definition loop_body (pattern : LinkPattern) (mt : MatchArray) (st : scan_state)
    : outcome scan_state :=
  let url := match_get mt (urlIndex pattern) in
  (* Skip if URL already processed *)
  if match url with Some u => bool_decide (u ∈ processedUrls st) | None => false end
  then Done st
  else
    (* Validate URL format *)
    match url with
    | Some ((_ :: _) as u) =>
      if negb (startsWith u (js "http")) then Done st
      else
        text_ ←
          match textIndex pattern with
          | Some ti =>
            match match_get mt ti with
            | Some t => Done (trim t)
            | None => Throws (TypeError (js "Cannot read properties of undefined (reading 'trim')"))
            end
          | None =>
            Done (if truthy (defaultText pattern)
                  then default [] (defaultText pattern) else js "Yüklə")
          end ;
        Done {| links := links st ++
                  [ {| text := text_; url := trim u; type := p_type pattern;
                       fullMatch := m_0 mt; priority := or99 (p_priority pattern) |} ];
                processedUrls := {[ u ]} ∪ processedUrls st |}
    | _ => Done st
    end.

(** The [while ((match = regex.exec(content)) !== null)] loop for one
    pattern; [lastIndex] is the [lastIndex] of the fresh [regex]. *)
Fixpoint while_exec (fuel : nat) (pattern : LinkPattern) (content : jsstring)
    (lastIndex : nat) (st : scan_state) : outcome scan_state :=
  match fuel with
  | O => OutOfFuel
  | S fuel' =>
    match exec (regex_ pattern) content lastIndex with
    | (None, _) => Done st
    | (Some mt, lastIndex') =>
      st' ← loop_body pattern mt st ;
      while_exec fuel' pattern content lastIndex' st'
    end
  end.

Fixpoint forEach_pattern (fuel : nat) (patterns : list LinkPattern)
    (content : jsstring) (st : scan_state) : outcome scan_state :=
  match patterns with
  | [] => Done st
  | pattern :: patterns' =>
    st' ← while_exec fuel pattern content O st ;
    forEach_pattern fuel patterns' content st'
  end.

(** [DOWNLOAD_LINK_PATTERNS.sort(...)]: the sort works in place and returns
    the array; the patterns are in the order of their priorities already, so
    that the array is left as it was. *)
Definition sortedPatterns : list LinkPattern :=
  Array_sort (fun a b => or99 (p_priority a) - or99 (p_priority b)) DOWNLOAD_LINK_PATTERNS.

(** The links in the order of their discovery, before the final sort. *)
Definition discoverLinks (fuel : nat) (content : jsstring) : outcome (list DownloadLink) :=
  st ← forEach_pattern fuel sortedPatterns content
         {| links := []; processedUrls := ∅ |} ;
  Done (links st).

Definition parseDownloadLinks_fuel (fuel : nat) (content : jsstring)
    : outcome (list DownloadLink) :=
  found ← discoverLinks fuel content ;
  Done (Array_sort (fun a b => priority a - priority b) found).

(** Each loop makes at most one more call of [exec] than the content has
    code units. *)
Definition parseDownloadLinks (content : jsstring) : outcome (list DownloadLink) :=
  parseDownloadLinks_fuel (S (length content)) content.

(** [downloadFromUrl]; [filename] is [None] for [null], the default. *)
Definition downloadFromUrl (host : Host) (url : jsstring) (filename : option jsstring)
    : io bool :=
  try_catch
    (emit (Fetch url) ;;
     response ← settle (fetch host url) ;
     (if negb (ok response)
      then throw (Error (js "Download failed: " ++ Number_toString (status response)
                           ++ js " " ++ statusText response))
      else mret tt) ;;
     blob ← settle (body response) ;
     (* Try to get filename from response headers *)
     filename ←
       (if negb (truthy filename) then
          let filename :=
            match contentDisposition response with
            | Some ((_ :: _) as cd) =>
              match header_filename cd with
              | Some name => Some name
              | None => filename
              end
            | _ => filename
            end in
          (* Fallback to URL-based filename *)
          if negb (truthy filename) then
            urlPath ← settle (pathname host url) ;
            let last := pop (split urlPath 47) in
            mret (if truthy (Some last) then last else js "download")
          else mret (default [] filename)
        else mret (default [] filename)) ;
     (* Ensure filename has extension *)
     let filename := if negb (includes filename (js ".")) then filename ++ js ".docx"
                     else filename in
     (* Create and trigger download *)
     emit (CreateObjectURL blob) ;;
     emit (Click filename blob) ;;
     emit (SetTimeout 100) ;;
     mret true)
    (λ error,
       emit (ConsoleError (js "Download error:") error) ;;
       throw (Error (js "Yükləmə xətası: " ++ message_of error))).

(** [[^a-z0-9əıöüçşğ\s]] *)
Definition not_kept_class : atom :=
  ACls true ([CRange 97 122; CRange 48 57] ++ chars "əıöüçşğ" ++ [CSpace]).

(** [/[^a-z0-9əıöüçşğ\s]/g] *)
Definition not_kept_regex : RegExp :=
  {| source := Atom not_kept_class; global := true; ignoreCase := false |}.

(** [/\s+/g] *)
Definition spaces_regex : RegExp :=
  {| source := AtLeast 1 (ACls false [CSpace]); global := true; ignoreCase := false |}.

(** [/_{2,}/g] *)
Definition underscores_regex : RegExp :=
  {| source := AtLeast 2 (AChr 95); global := true; ignoreCase := false |}.

(** [/^_|_$/g] *)
Definition edge_underscore_regex : RegExp :=
  {| source := Alt (Seq Bol (lit "_")) (Seq (lit "_") Eol);
     global := true; ignoreCase := false |}.

Section GenerateFilename.
(** [String.prototype.toLowerCase], the case mapping of the host. *)
Variable toLowerCase : jsstring → jsstring.

Definition cleanName (templateName : jsstring) : jsstring :=
  replace_all edge_underscore_regex []
    (replace_all underscores_regex (js "_")
       (replace_all spaces_regex (js "_")
          (replace_all not_kept_regex [] (toLowerCase templateName)))).

(** [generateFilename]; [extension] is [None] when the argument is left
    out. *)
Definition generateFilename (templateName : jsstring) (extension : option jsstring)
    : jsstring :=
  let extension := default (js "docx") extension in
  let cleanName := cleanName templateName in
  (if truthy (Some cleanName) then cleanName else js "template") ++ js "." ++ extension.
End GenerateFilename.

(** [/\n{3,}/g] *)
Definition newlines_regex : RegExp :=
  {| source := AtLeast 3 (AChr 10); global := true; ignoreCase := false |}.

(** [/\s{2,}/g] *)
Definition whitespace_regex : RegExp :=
  {| source := AtLeast 2 (ACls false [CSpace]); global := true; ignoreCase := false |}.

(** The [links.forEach] of [removeDownloadLinks]. *)
Definition strip_links (content : jsstring) (links : list DownloadLink) : jsstring :=
  fold_left
    (λ cleanContent link,
       if truthy (Some (fullMatch link))
       then replace_first cleanContent (fullMatch link) []
       else cleanContent)
    links content.

Definition removeDownloadLinks (content : jsstring) (links : list DownloadLink) : jsstring :=
  trim (replace_all whitespace_regex (js " ")
          (replace_all newlines_regex [10; 10] (strip_links content links))).

(** [getFileExtension]: the [catch] returns [docx] for a url that
    [new URL] refuses. *)
Definition getFileExtension (host : Host) (url : jsstring) : jsstring :=
  match pathname host url with
  | inl _ => js "docx"
  | inr pathname_ =>
    let extension := pop (split pathname_ 46) in
    if truthy (Some extension) && (length extension <=? 4)%nat then extension else js "docx"
  end.

Record TemplateType := {
  keywords : list jsstring;
  azName : jsstring;
  defaultFilename : jsstring
}.

(** [TEMPLATE_TYPES], as [Object.entries] lists it: the keys in the order in
    which the object literal has them. *)
Definition TEMPLATE_TYPES : list (jsstring * TemplateType) := [
  (js "vacation",
   {| keywords := [js "məzuniyyət"; js "vacation"; js "tətil"; js "istirahət"; js "məzuniyət"];
      azName := js "Məzuniyyət Ərizəsi";
      defaultFilename := js "mezuniyyet_erizesi" |});
  (js "business_trip",
   {| keywords := [js "ezamiyyət"; js "business_trip"; js "səfər"; js "komandirovka";
                   js "ezamiyyet"];
      azName := js "Ezamiyyət Ərizəsi";
      defaultFilename := js "ezamiyyet_erizesi" |});
  (js "contract",
   {| keywords := [js "müqavilə"; js "contract"; js "razılaşma"; js "saziş"; js "muqavile"];
      azName := js "Müqavilə Şablonu";
      defaultFilename := js "muqavile_sablonu" |});
  (js "memorandum",
   {| keywords := [js "memorandum"; js "anlaşma"; js "razılaşma"; js "anlasma"];
      azName := js "Anlaşma Memorandumu";
      defaultFilename := js "anlasma_memorandumu" |})
].

(** [keywords.some(kw => messageLower.includes(kw))] *)
Definition some_included (messageLower : jsstring) (kws : list jsstring) : bool :=
  existsb (λ keyword, includes messageLower keyword) kws.

Section TemplateTypeDetector.
(** [String.prototype.toLowerCase], the case mapping of the host. *)
Variable toLowerCase : jsstring → jsstring.

(** [TemplateTypeDetector.detect]; [None] is [null]. *)
Definition detect (message : jsstring) : option jsstring :=
  let messageLower := toLowerCase message in
  fst <$> List.find (λ entry, some_included messageLower (keywords entry.2)) TEMPLATE_TYPES.

(** [TemplateTypeDetector.isTemplateRequest] *)
Definition isTemplateRequest (message : jsstring) : bool :=
  let templateKeywords := [js "nümunə"; js "template"; js "şablon"; js "sablon"] in
  let actionKeywords := [js "yüklə"; js "download"; js "link"; js "ver"; js "göstər"] in
  let messageLower := toLowerCase message in
  let hasTemplateKeyword := some_included messageLower templateKeywords in
  let hasActionKeyword := some_included messageLower actionKeywords in
  let hasTemplateType := bool_decide (detect message ≠ None) in
  hasTemplateType && (hasTemplateKeyword || hasActionKeyword).

(** The object that [processContent] returns. *)
Record ProcessedContent := {
  originalContent : jsstring;
  downloadLinks : list DownloadLink;
  templateType : option jsstring;
  isTemplateRequest_ : bool;
  hasDownloads : bool;
  cleanContent_ : jsstring
}.

(** [MessageContentProcessor.processContent] *)
Definition processContent (content : jsstring) : outcome ProcessedContent :=
  downloadLinks ← parseDownloadLinks content ;
  let templateType := detect content in
  let isTemplateRequest := isTemplateRequest content in
  Done {| originalContent := content;
          downloadLinks := downloadLinks;
          templateType := templateType;
          isTemplateRequest_ := isTemplateRequest;
          hasDownloads := (0 <? length downloadLinks)%nat;
          cleanContent_ := removeDownloadLinks content downloadLinks |}.
End TemplateTypeDetector.

End TemplateDownloadUtils.

(** ** [src/components/SmartDashboard.jsx] *)

Module SmartDashboard.

Record Link := {
  text : jsstring;
  url : jsstring;
  fullMatch : jsstring;
  type : link_type
}.

(** [[http][^\s\n]+] *)
Definition url_group (n : nat) : regex :=
  Group n (Seq (Atom (ACls false (chars "http"))) (Plus (ACls true [CSpace; CChar 10]))).

Definition patterns : list RegExp := [
  (* /\[([^\]]+)\]\((http[s]?:\/\/[^\)]+)\)/g *)
  {| source := Seqs [lit "["; Group 1 (Plus (ACls true (chars "]"))); lit "](";
                     Group 2 (Seqs [lit "http"; Opt (Atom (ACls false (chars "s"))); lit "://";
                                    Plus (ACls true (chars ")"))]);
                     lit ")"];
     global := true; ignoreCase := false |};
  (* /\*\*[^*]*yükləmə[^*]*linki[^*]*\*\*[:\s]*([http][^\s\n]+)/gi *)
  {| source := Seqs [lit "**"; Star true (ACls true (chars "*")); lit "yükləmə";
                     Star true (ACls true (chars "*")); lit "linki";
                     Star true (ACls true (chars "*")); lit "**";
                     Star true (ACls false (chars ":" ++ [CSpace])); url_group 1];
     global := true; ignoreCase := true |};
  (* /📥[^:]*:[:\s]*([http][^\s\n]+)/gi *)
  {| source := Seqs [lit "📥"; Star true (ACls true (chars ":")); lit ":";
                     Star true (ACls false (chars ":" ++ [CSpace])); url_group 1];
     global := true; ignoreCase := true |}
].

(** The body of the [while] loop for the match [mt]: the [links] after
    it. *)
Definition loop_body (mt : MatchArray) (links : list Link) : list Link :=
  if truthy (match_get mt 2) then
    (* Markdown link format [text](url) *)
    links ++ [ {| text := default [] (match_get mt 1);
                  url := default [] (match_get mt 2);
                  fullMatch := m_0 mt; type := markdown |} ]
  else if truthy (match_get mt 1) then
    (* Direct URL *)
    links ++ [ {| text := js "Yüklə";
                  url := default [] (match_get mt 1);
                  fullMatch := m_0 mt; type := direct |} ]
  else links.

(** The [while ((match = regex.exec(text)) !== null)] loop of one
    pattern. *)
Fixpoint while_exec (fuel : nat) (regex : RegExp) (text_ : jsstring)
    (lastIndex : nat) (links : list Link) : outcome (list Link) :=
  match fuel with
  | O => OutOfFuel
  | S fuel' =>
    match exec regex text_ lastIndex with
    | (None, _) => Done links
    | (Some mt, lastIndex') =>
      while_exec fuel' regex text_ lastIndex' (loop_body mt links)
    end
  end.

Fixpoint forEach_pattern (fuel : nat) (ps : list RegExp) (text_ : jsstring)
    (links : list Link) : outcome (list Link) :=
  match ps with
  | [] => Done links
  | pattern :: ps' =>
    links' ← while_exec fuel pattern text_ O links ;
    forEach_pattern fuel ps' text_ links'
  end.

Definition parseDownloadLinks_fuel (fuel : nat) (text_ : jsstring) : outcome (list Link) :=
  forEach_pattern fuel patterns text_ [].

Definition parseDownloadLinks (text_ : jsstring) : outcome (list Link) :=
  parseDownloadLinks_fuel (S (length text_)) text_.

(** [handleDownloadFromLink]; [filename] is [None] when the argument is
    left out. *)
Definition handleDownloadFromLink (host : Host) (url : jsstring) (filename : option jsstring)
    : io unit :=
  let filename := default (js "template") filename in
  try_catch
    (emit (ConsoleLog (js "Downloading from URL: " ++ url)) ;;
     emit (Fetch url) ;;
     response ← settle (fetch host url) ;
     (if negb (ok response)
      then throw (Error (js "Download failed: " ++ Number_toString (status response)
                           ++ js " " ++ statusText response))
      else mret tt) ;;
     blob ← settle (body response) ;
     (if Nat.eqb (size blob) 0 then throw (Error (js "Boş fayl alındı")) else mret tt) ;;
     emit (ConsoleLog (js "Downloaded blob: size=" ++ Number_toString (size blob)
                         ++ js ", type=" ++ blob_type blob)) ;;
     (* Try to get filename from response headers *)
     let filename :=
       match contentDisposition response with
       | Some ((_ :: _) as cd) =>
         if includes cd (js "filename=") then
           match header_filename cd with
           | Some name => name
           | None => filename
           end
         else filename
       | _ => filename
       end in
     (* Create download *)
     emit (CreateObjectURL blob) ;;
     emit (Click filename blob) ;;
     emit (SetTimeout 100) ;;
     emit (ToastSuccess (js "Fayl yükləndi")))
    (λ error,
       emit (ConsoleError (js "Download error:") error) ;;
       emit (ToastError (js "Yükləmə xətası: " ++ message_of error))).

(** The [cleanContent.trim()] that [renderMessageWithDownloadLinks]
    renders. *)
Definition cleanContent (content : jsstring) (downloadLinks : list Link) : jsstring :=
  trim (fold_left (λ c link, replace_first c (fullMatch link) []) downloadLinks content).

(** The [onClick] of the button that [renderDownloadLinks] makes for
    [link]. *)
Definition onClick (host : Host) (link : Link) : io unit :=
  handleDownloadFromLink host (url link) (Some (text link)).

(** [renderMessageWithDownloadLinks]: the text that is rendered as markdown
    and the links that are handed to [renderDownloadLinks]. *)
Definition renderMessageWithDownloadLinks (content : jsstring)
    : outcome (jsstring * list Link) :=
  downloadLinks ← parseDownloadLinks content ;
  Done (cleanContent content downloadLinks, downloadLinks).

End SmartDashboard.

(** * Notions of the statements *)

Import TemplateDownloadUtils.

(** ** Matches *)

(** What a successful match is: [matches ic r i rest caps j rest' caps'] when
    [r] matches the input [rest] at position [i] up to position [j], where
    [rest'] is left, turning the captures [caps] into [caps']. *)
Fixpoint matches (ic : bool) (r : regex) (i : nat) (rest : jsstring) (caps : captures)
    (j : nat) (rest' : jsstring) (caps' : captures) : Prop :=
  match r with
  | Eps => j = i ∧ rest' = rest ∧ caps' = caps
  | Atom a => ∃ c, rest = c :: rest' ∧ atom_matches ic a c = true ∧ j = S i ∧ caps' = caps
  | Seq r1 r2 =>
    ∃ k restk capsk,
      matches ic r1 i rest caps k restk capsk ∧ matches ic r2 k restk capsk j rest' caps'
  | Alt r1 r2 =>
    matches ic r1 i rest caps j rest' caps' ∨ matches ic r2 i rest caps j rest' caps'
  | Group n r1 =>
    ∃ caps1, matches ic r1 i rest caps j rest' caps1 ∧
             caps' = (n, take (j - i)%nat rest) :: caps1
  | Backref n =>
    caps' = caps ∧
    match cap_get caps n with
    | None => j = i ∧ rest' = rest
    | Some s => prefix_matches ic s rest = true ∧ j = (i + length s)%nat ∧
                rest' = drop (length s) rest
    end
  | Star _ a =>
    ∃ n, (n ≤ length rest)%nat ∧ forallb (atom_matches ic a) (take n rest) = true ∧
         j = (i + n)%nat ∧ rest' = drop n rest ∧ caps' = caps
  | Bol => i = O ∧ j = i ∧ rest' = rest ∧ caps' = caps
  | Eol => rest = [] ∧ j = i ∧ rest' = rest ∧ caps' = caps
  end.

(** The least number of code units a match of [r] takes. *)
Fixpoint minlen (r : regex) : nat :=
  match r with
  | Atom _ => 1
  | Seq r1 r2 => minlen r1 + minlen r2
  | Alt r1 r2 => Nat.min (minlen r1) (minlen r2)
  | Group _ r1 => minlen r1
  | Eps | Backref _ | Star _ _ | Bol | Eol => 0
  end.

(** The matches that the successive calls of [exec] return from [lastIndex]
    on, until it returns [null]. *)
Fixpoint exec_all (fuel : nat) (re : RegExp) (s : jsstring) (lastIndex : nat)
    : outcome (list MatchArray) :=
  match fuel with
  | O => OutOfFuel
  | S fuel' =>
    match exec re s lastIndex with
    | (None, _) => Done []
    | (Some mt, lastIndex') => ms ← exec_all fuel' re s lastIndex' ; Done (mt :: ms)
    end
  end.

(** All of them, from the start of [s]. *)
Definition all_matches (re : RegExp) (s : jsstring) : list MatchArray :=
  match exec_all (S (length s)) re s O with
  | Done ms => ms
  | _ => []
  end.

(** [mt] is the match array of a match of [re] in [s]. *)
Definition is_match (re : RegExp) (s : jsstring) (mt : MatchArray) : Prop :=
  (m_index mt + minlen (source re) ≤ m_end mt ≤ length s)%nat ∧
  ∃ rest', matches (ignoreCase re) (source re) (m_index mt) (drop (m_index mt) s) []
             (m_end mt) rest' (m_groups mt) ∧
           m_0 mt = take (m_end mt - m_index mt) (drop (m_index mt) s).

(** The loop bodies run in sequence over a list of matches. *)
Fixpoint run_bodies {S : Type} (body : MatchArray → S → outcome S)
    (ms : list MatchArray) (st : S) : outcome S :=
  match ms with
  | [] => Done st
  | mt :: ms' => st' ← body mt st ; run_bodies body ms' st'
  end.

(** Every match of [r] sets the group [n]. *)
Fixpoint sets (n : nat) (r : regex) : bool :=
  match r with
  | Seq r1 r2 => sets n r1 || sets n r2
  | Alt r1 r2 => sets n r1 && sets n r2
  | Group m r1 => Nat.eqb m n || sets n r1
  | _ => false
  end.

(** ** The links of a text *)

(** What the loops rely on for a pattern: the expression is global, its
    matches are not empty, and the group of the label is set by every
    match. *)
Definition pattern_ok (p : LinkPattern) : bool :=
  global (regex_ p) && (1 <=? minlen (source (regex_ p)))%nat &&
  match textIndex p with
  | Some ti => Nat.eqb ti 0 || sets ti (source (regex_ p))
  | None => true
  end.

(** The label of a match: the trimmed group of the pattern, or its default
    text. *)
Definition label (p : LinkPattern) (mt : MatchArray) : jsstring :=
  match textIndex p with
  | Some ti => trim (default [] (match_get mt ti))
  | None => if truthy (defaultText p) then default [] (defaultText p) else js "Yüklə"
  end.

(** The link that a match stands for, with the captured url it is keyed by:
    none when the capture is empty or does not start with [http]. *)
Definition candidate (p : LinkPattern) (mt : MatchArray) : option (jsstring * DownloadLink) :=
  match match_get mt (urlIndex p) with
  | Some ((_ :: _) as u) =>
    if startsWith u (js "http")
    then Some (u, {| text := label p mt; url := trim u; type := p_type p;
                     fullMatch := m_0 mt; priority := or99 (p_priority p) |})
    else None
  | _ => None
  end.

(** The candidates of a text in the order of the scan: the patterns by
    ascending priority, the matches of a pattern from left to right. *)
Definition candidates (content : jsstring) : list (jsstring * DownloadLink) :=
  sortedPatterns ≫= λ p, omap (candidate p) (all_matches (regex_ p) content).

(** Of the candidates that share a key, the first. *)
Fixpoint first_seen {A} (seen : list jsstring) (cands : list (jsstring * A))
    : list (jsstring * A) :=
  match cands with
  | [] => []
  | (u, l) :: cands' =>
    if bool_decide (u ∈ seen) then first_seen seen cands'
    else (u, l) :: first_seen (u :: seen) cands'
  end.

(** The state of the scan after a candidate. *)
Definition add_candidate (c : option (jsstring * DownloadLink)) (st : scan_state) : scan_state :=
  match c with
  | Some (u, l) =>
    if bool_decide (u ∈ processedUrls st) then st
    else {| links := links st ++ [l]; processedUrls := {[ u ]} ∪ processedUrls st |}
  | None => st
  end.

(** The expression is global and its matches are not empty. *)
Definition regexp_ok (re : RegExp) : bool :=
  global re && (1 <=? minlen (source re))%nat.

(** The expressions that the two scans run. *)
Definition scanned_expressions : list RegExp :=
  List.map regex_ DOWNLOAD_LINK_PATTERNS ++ SmartDashboard.patterns.

(** The text from here on starts with [http], then [s] in either case or
    nothing, then [://]. *)
Definition url_shape_at (s : jsstring) : bool :=
  startsWith s (js "http") &&
  (startsWith (drop 4 s) (js "://") ||
   match drop 4 s with
   | c :: t => ((c =? 115) || (c =? 83)) && startsWith t (js "://")
   | [] => false
   end).

(** The text holds a substring of the shape of an http(s) url. *)
Fixpoint has_http_url (s : jsstring) : bool :=
  url_shape_at s || match s with [] => false | _ :: s' => has_http_url s' end.

(** The expressions in the groups numbered [n] of [r]. *)
Fixpoint group_bodies (n : nat) (r : regex) : list regex :=
  match r with
  | Seq r1 r2 | Alt r1 r2 => group_bodies n r1 ++ group_bodies n r2
  | Group m r1 => (if Nat.eqb m n then [r1] else []) ++ group_bodies n r1
  | _ => []
  end.

(** The capture that the loop accepts: not empty and starting with
    [http]. *)
Definition valid_capture (o : option jsstring) : bool :=
  match o with
  | Some ((_ :: _) as u) => startsWith u (js "http")
  | _ => false
  end.

(** ** Downloads *)

(** A download that failed with [e]: the error is logged and thrown again
    with the prefix of the handler. *)
Definition failed (url : jsstring) (e : js_error) : io bool :=
  ([Fetch url; ConsoleError (js "Download error:") e],
   Throws (Error (js "Yükləmə xətası: " ++ message_of e))).

(** A download that handed [blob] to the page under the name [name]. *)
Definition saved (url name : jsstring) (blob : Blob) : io bool :=
  ([Fetch url; CreateObjectURL blob; Click name blob; SetTimeout 100], Done true).

(** The name with [.docx] added when it has no dot. *)
Definition ensure_extension (name : jsstring) : jsstring :=
  if negb (includes name (js ".")) then name ++ js ".docx" else name.

(** The error of a response that is not [ok]. *)
Definition http_error (response : Response) : js_error :=
  Error (js "Download failed: " ++ Number_toString (status response) ++ js " "
           ++ statusText response).

(** The name that the header of the response gives, if any. *)
Definition header_name (response : Response) : option jsstring :=
  match contentDisposition response with
  | Some ((_ :: _) as cd) =>
    match header_filename cd with
    | Some ((_ :: _) as name) => Some name
    | _ => None
    end
  | _ => None
  end.

(** The last segment of a path, or the fallback. *)
Definition path_name (urlPath : jsstring) : jsstring :=
  match pop (split urlPath 47) with
  | [] => js "download"
  | last => last
  end.

(** The event is a request. *)
Definition is_fetch (e : event) : bool :=
  match e with
  | Fetch _ => true
  | _ => false
  end.



(** A server that answers 200 with an empty body. *)
Definition host_empty_body : Host :=
  {| fetch := λ _, inr {| status := 200; statusText := js "OK";
                          contentDisposition := None;
                          body := inr {| size := 0; blob_type := [] |} |};
     pathname := λ _, inr (js "/files/a.docx") |}.

(** ** Runs of code units *)

(** The length of the longest prefix of code units that satisfy [p]. *)
Fixpoint run_length (p : Z → bool) (s : jsstring) : nat :=
  match s with
  | c :: s' => if p c then S (run_length p s') else O
  | [] => O
  end.

(** The string starts with a unit that satisfies [p]. *)
Definition head_is (p : Z → bool) (s : jsstring) : bool :=
  match s with
  | c :: _ => p c
  | [] => false
  end.

(** Two units in a row satisfy [p]. *)
Fixpoint has_adjacent (p : Z → bool) (s : jsstring) : bool :=
  match s with
  | c :: s' => (p c && head_is p s') || has_adjacent p s'
  | [] => false
  end.

(** The header [attachment; filename="report.pdf"]. *)
Definition header_report : jsstring :=
  js "attachment; filename=" ++ [34] ++ js "report.pdf" ++ [34].


(** A server that answers 200 with the [Content-Disposition] header [cd]. *)
Definition host_header (cd : jsstring) : Host :=
  {| fetch := λ _, inr {| status := 200; statusText := js "OK";
                          contentDisposition := Some cd;
                          body := inr {| size := 3; blob_type := js "application/pdf" |} |};
     pathname := λ _, inr (js "/download") |}.


(** ** Clean names *)

(** The characters that the first replacement keeps, white space apart. *)
Definition kept_char (c : Z) : bool :=
  existsb (λ it, item_matches false it c) ([CRange 97 122; CRange 48 57] ++ chars "əıöüçşğ").

(** The characters of a clean name: lower-case ASCII letters, digits, the
    seven letters of the Azerbaijani alphabet, and the underscore. *)
Definition name_char (c : Z) : bool := kept_char c || (c =? 95).

(** The string without its last unit when that is an underscore. *)
Fixpoint strip_last (s : jsstring) : jsstring :=
  match s with
  | [] => []
  | c :: s' =>
    match s' with
    | [] => if 95 =? c then [] else [c]
    | _ :: _ => c :: strip_last s'
    end
  end.

(** The string without one underscore at its start and one at its end. *)
Definition strip_edges (s : jsstring) : jsstring :=
  match s with
  | c :: s' => if 95 =? c then strip_last s' else strip_last s
  | [] => []
  end.

(** The pattern of [edge_underscore_regex]. *)
Abbreviation edge_regex := (Alt (Seq Bol (Atom (AChr 95))) (Seq (Atom (AChr 95)) Eol)).

(** [String.prototype.toLowerCase], written out for Basic Latin, Latin-1 and
    the capital letters of the Azerbaijani alphabet; the other code units are
    left as they are. *)
Definition toLowerCase_latin (s : jsstring) : jsstring :=
  s ≫= λ c,
    if (65 <=? c) && (c <=? 90) then [c + 32]
    else if (0xC0 <=? c) && (c <=? 0xDE) && negb (c =? 0xD7) then [c + 32]
    else if c =? 0x18F then [0x259]
    else if c =? 0x11E then [0x11F]
    else if c =? 0x15E then [0x15F]
    else if c =? 0x130 then [0x69; 0x307]
    else [c].

(** ** Further notions *)

(** The last unit of the string satisfies [p]. *)
Definition last_is (p : Z → bool) (s : jsstring) : bool :=
  match last s with
  | Some c => p c
  | None => false
  end.

(** The event is a toast. *)
Definition is_toast (e : event) : bool :=
  match e with
  | ToastSuccess _ | ToastError _ => true
  | _ => false
  end.

(** The event is a click on a download link. *)
Definition is_click (e : event) : bool :=
  match e with
  | Click _ _ => true
  | _ => false
  end.

(** A server that answers 200 with a file, for a url whose path is
    [/files/report.pdf]. *)
Definition host_report : Host :=
  {| fetch := λ _, inr {| status := 200; statusText := js "OK";
                          contentDisposition := None;
                          body := inr {| size := 3; blob_type := js "application/pdf" |} |};
     pathname := λ _, inr (js "/files/report.pdf") |}.

(** ** The links of the dashboard *)

(** One of the letters [h], [t] and [p], in either case. *)
Definition is_htp (c : Z) : bool := existsb (Z.eqb c) [104; 116; 112; 72; 84; 80].

(** What holds of a link that the dashboard finds in [text_]: where its
    parts are, and their shape for each kind. *)
Definition found_in (text_ : jsstring) (l : SmartDashboard.Link) : Prop :=
  SmartDashboard.fullMatch l ≠ [] ∧
  includes text_ (SmartDashboard.fullMatch l) = true ∧
  includes (SmartDashboard.fullMatch l) (SmartDashboard.url l) = true ∧
  match SmartDashboard.type l with
  | markdown =>
    SmartDashboard.text l ≠ [] ∧
    Forall (λ c, c ≠ 93) (SmartDashboard.text l) ∧
    startsWith (SmartDashboard.url l) (js "http") = true ∧
    Forall (λ c, c ≠ 41) (SmartDashboard.url l)
  | direct =>
    SmartDashboard.text l = js "Yüklə" ∧
    head_is is_htp (SmartDashboard.url l) = true ∧
    (2 ≤ length (SmartDashboard.url l))%nat ∧
    Forall (λ c, is_space c = false) (SmartDashboard.url l)
  | _ => False
  end.

(** ** Notions of the corrections *)










(** * Properties *)

(** ** The matcher *)

Section MatcherFacts.
Context {R : Type}.
Implicit Types (k : nat → jsstring → option R) (p : Z → bool).

Lemma star_greedy_sound p i rest k x :
  star_greedy p i rest k = Some x →
  ∃ n, (n ≤ length rest)%nat ∧ forallb p (take n rest) = true ∧
       k (i + n)%nat (drop n rest) = Some x.
Proof.
  revert i; induction rest as [|c rest IH]; intros i; simpl.
  - intros H. exists O. rewrite Nat.add_0_r. auto.
  - destruct (p c) eqn:Hc.
    + destruct (star_greedy p (S i) rest k) eqn:Hs.
      * intros [= ->]. destruct (IH _ Hs) as (n & Hn & Hall & Hk).
        exists (S n). simpl. rewrite Hc, Hall.
        replace (i + S n)%nat with (S i + n)%nat by lia. split; [lia | auto].
      * intros H. exists O. rewrite Nat.add_0_r. split; [lia | auto].
    + intros H. exists O. rewrite Nat.add_0_r. split; [lia | auto].
Qed.

Lemma star_lazy_sound p i rest k x :
  star_lazy p i rest k = Some x →
  ∃ n, (n ≤ length rest)%nat ∧ forallb p (take n rest) = true ∧
       k (i + n)%nat (drop n rest) = Some x.
Proof.
  revert i; induction rest as [|c rest IH]; intros i; simpl.
  - destruct (k i []) eqn:Hk; [|discriminate].
    intros [= ->]. exists O. rewrite Nat.add_0_r. auto.
  - destruct (k i (c :: rest)) eqn:Hk.
    + intros [= ->]. exists O. rewrite Nat.add_0_r. split; [lia | auto].
    + destruct (p c) eqn:Hc; [|discriminate].
      intros Hs. destruct (IH _ Hs) as (n & Hn & Hall & Hk').
      exists (S n). simpl. rewrite Hc, Hall.
      replace (i + S n)%nat with (S i + n)%nat by lia. split; [lia | auto].
Qed.

(** Whatever the matcher returns was returned by its continuation at a
    match. *)
Lemma rmatch_sound ic r :
  ∀ i rest caps (k : nat → jsstring → captures → option R) x,
    rmatch ic r i rest caps k = Some x →
    ∃ j rest' caps', matches ic r i rest caps j rest' caps' ∧ k j rest' caps' = Some x.
Proof.
  induction r as [|a|r1 IH1 r2 IH2|r1 IH1 r2 IH2|n r1 IH1|n|g a| |];
    intros i rest caps k x; simpl.
  - intros H. exists i, rest, caps. auto.
  - destruct rest as [|c rest']; [discriminate|].
    destruct (atom_matches ic a c) eqn:Hc; [|discriminate].
    intros H. exists (S i), rest', caps. split; [exists c|]; auto.
  - intros H. apply IH1 in H as (j1 & rest1 & caps1 & Hm1 & H).
    apply IH2 in H as (j & rest' & caps' & Hm2 & H).
    exists j, rest', caps'. split; [|done]. exists j1, rest1, caps1. auto.
  - destruct (rmatch ic r1 i rest caps k) eqn:H1.
    + intros [= ->]. apply IH1 in H1 as (j & rest' & caps' & Hm & H).
      exists j, rest', caps'. auto.
    + intros H. apply IH2 in H as (j & rest' & caps' & Hm & H).
      exists j, rest', caps'. auto.
  - intros H. apply IH1 in H as (j & rest' & caps1 & Hm & H).
    exists j, rest', ((n, take (j - i)%nat rest) :: caps1). split; [|done].
    exists caps1. auto.
  - destruct (cap_get caps n) as [s|] eqn:Hg.
    + destruct (prefix_matches ic s rest) eqn:Hp; [|discriminate].
      intros H. exists (i + length s)%nat, (drop (length s) rest), caps.
      auto.
    + intros H. exists i, rest, caps. auto.
  - intros H.
    assert (∃ n, (n ≤ length rest)%nat ∧
                 forallb (atom_matches ic a) (take n rest) = true ∧
                 k (i + n)%nat (drop n rest) caps = Some x) as (n & Hn & Hall & Hk).
    { destruct g; [apply star_greedy_sound in H | apply star_lazy_sound in H]; done. }
    exists (i + n)%nat, (drop n rest), caps. split; [|done]. exists n. auto.
  - destruct (Nat.eqb_spec i 0); [|discriminate].
    intros H. exists i, rest, caps. auto.
  - destruct rest; [|discriminate].
    intros H. exists i, [], caps. auto.
Qed.
End MatcherFacts.

Lemma prefix_matches_length ic p s :
  prefix_matches ic p s = true → (length p ≤ length s)%nat.
Proof.
  revert s; induction p as [|a p IH]; intros [|c s]; simpl; try lia; try discriminate.
  intros [_ H]%andb_prop. apply IH in H. lia.
Qed.

(** A match takes a prefix of the input, of at least [minlen r] code
    units. *)
Lemma matches_consumes ic r :
  ∀ i rest caps j rest' caps',
    matches ic r i rest caps j rest' caps' →
    ∃ n, (minlen r ≤ n ≤ length rest)%nat ∧ j = (i + n)%nat ∧ rest' = drop n rest.
Proof.
  induction r as [|a|r1 IH1 r2 IH2|r1 IH1 r2 IH2|n r1 IH1|n|g a| |];
    intros i rest caps j rest' caps'; simpl.
  - intros (-> & -> & _). exists O. split; [lia|]. split; [lia | done].
  - intros (c & -> & _ & -> & _). exists 1%nat. simpl. split; [lia|]. split; [lia | done].
  - intros (k & restk & capsk & H1 & H2).
    apply IH1 in H1 as (n1 & Hn1 & -> & ->). apply IH2 in H2 as (n2 & Hn2 & -> & ->).
    rewrite length_drop in Hn2. exists (n1 + n2)%nat.
    rewrite drop_drop. split; [lia|]. split; [lia | done].
  - intros [H|H]; [apply IH1 in H | apply IH2 in H];
      destruct H as (n & Hn & -> & ->); exists n; (split; [lia | done]).
  - intros (caps1 & H & _). apply IH1 in H. done.
  - intros (_ & H). destruct (cap_get caps n) as [s|].
    + destruct H as (Hp%prefix_matches_length & -> & ->). exists (length s).
      split; [lia | done].
    + destruct H as (-> & ->). exists O. split; [lia|]. split; [lia | done].
  - intros (n & Hn & _ & -> & -> & _). exists n. split; [lia | done].
  - intros (_ & -> & -> & _). exists O. split; [lia|]. split; [lia | done].
  - intros (_ & -> & -> & _). exists O. split; [simpl; lia|]. split; [lia | done].
Qed.

(** [search] and [exec] return matches of the pattern. *)
Lemma search_sound ic r :
  ∀ rest i mt,
    search ic r i rest = Some mt →
    ∃ d rest', (d ≤ length rest)%nat ∧ m_index mt = (i + d)%nat ∧
      matches ic r (i + d) (drop d rest) [] (m_end mt) rest' (m_groups mt) ∧
      m_0 mt = take (m_end mt - m_index mt) (drop d rest).
Proof.
  induction rest as [|c rest IH]; intros i mt; simpl.
  - destruct (rmatch _ _ _ _ _ _) eqn:H; [|discriminate].
    intros [= ->]. apply rmatch_sound in H as (j & rest' & caps' & Hm & [= <-]).
    exists O, rest'. simpl. rewrite Nat.add_0_r. auto.
  - destruct (rmatch _ _ _ _ _ _) eqn:H.
    + intros [= ->]. apply rmatch_sound in H as (j & rest' & caps' & Hm & [= <-]).
      exists O, rest'. simpl. rewrite Nat.add_0_r. split; [lia | auto].
    + intros Hs. apply IH in Hs as (d & rest' & Hd & Hi & Hm & H0).
      exists (S d), rest'. simpl. replace (i + S d)%nat with (S i + d)%nat by lia.
      split; [lia | auto].
Qed.

Lemma exec_sound re s lastIndex mt lastIndex' :
  global re = true →
  exec re s lastIndex = (Some mt, lastIndex') →
  lastIndex' = m_end mt ∧
  (lastIndex ≤ m_index mt)%nat ∧
  (m_index mt + minlen (source re) ≤ m_end mt ≤ length s)%nat ∧
  ∃ rest', matches (ignoreCase re) (source re) (m_index mt) (drop (m_index mt) s) []
             (m_end mt) rest' (m_groups mt) ∧
           m_0 mt = take (m_end mt - m_index mt) (drop (m_index mt) s).
Proof.
  intros Hg. unfold exec. rewrite Hg.
  destruct (Nat.ltb_spec (length s) lastIndex); [discriminate|].
  destruct (search _ _ _ _) as [mt'|] eqn:Hs; [|discriminate].
  intros [= -> <-]. split; [done|].
  apply search_sound in Hs as (d & rest' & Hd & Hi & Hm & H0).
  rewrite drop_drop in Hm, H0. rewrite <- Hi in Hm, H0.
  rewrite length_drop in Hd.
  pose proof (matches_consumes _ _ _ _ _ _ _ _ Hm) as (n & Hn & Hj & _).
  rewrite length_drop in Hn.
  split; [lia|]. split; [lia|]. exists rest'. auto.
Qed.

(** ** The calls of [exec] in a loop *)

Lemma exec_is_match re s lastIndex mt lastIndex' :
  global re = true →
  exec re s lastIndex = (Some mt, lastIndex') →
  is_match re s mt ∧ lastIndex' = m_end mt ∧ (lastIndex ≤ m_index mt)%nat.
Proof.
  intros Hg He. destruct (exec_sound _ _ _ _ _ Hg He) as (? & ? & ? & ?).
  unfold is_match. auto.
Qed.

(** A global expression whose matches are never empty moves [lastIndex]
    forward at each match. *)
Lemma exec_advances re s lastIndex mt lastIndex' :
  global re = true → (1 ≤ minlen (source re))%nat →
  exec re s lastIndex = (Some mt, lastIndex') →
  (lastIndex < lastIndex' ≤ length s)%nat.
Proof.
  intros Hg Hmin He. destruct (exec_sound _ _ _ _ _ Hg He) as (-> & ? & ? & _). lia.
Qed.

Lemma exec_all_done re s :
  global re = true → (1 ≤ minlen (source re))%nat →
  ∀ fuel lastIndex,
    (length s - lastIndex < fuel)%nat →
    ∃ ms, exec_all fuel re s lastIndex = Done ms ∧ Forall (is_match re s) ms.
Proof.
  intros Hg Hmin. induction fuel as [|fuel IH]; intros li Hf; [lia|]. simpl.
  destruct (exec re s li) as [[mt|] li'] eqn:He.
  - pose proof (exec_advances _ _ _ _ _ Hg Hmin He).
    destruct (exec_is_match _ _ _ _ _ Hg He) as (Hm & _ & _).
    destruct (IH li') as (ms & -> & Hms); [lia|].
    exists (mt :: ms). split; [done|]. by constructor.
  - exists []. split; [done | constructor].
Qed.

Lemma exec_all_fuel re s :
  global re = true → (1 ≤ minlen (source re))%nat →
  ∀ f1 f2 lastIndex,
    (length s - lastIndex < f1)%nat → (length s - lastIndex < f2)%nat →
    exec_all f1 re s lastIndex = exec_all f2 re s lastIndex.
Proof.
  intros Hg Hmin. induction f1 as [|f1 IH]; intros [|f2] li H1 H2; try lia. simpl.
  destruct (exec re s li) as [[mt|] li'] eqn:He; [|done].
  pose proof (exec_advances _ _ _ _ _ Hg Hmin He).
  rewrite (IH f2 li') by lia. done.
Qed.

Lemma all_matches_spec re s fuel :
  global re = true → (1 ≤ minlen (source re))%nat → (length s < fuel)%nat →
  exec_all fuel re s O = Done (all_matches re s) ∧ Forall (is_match re s) (all_matches re s).
Proof.
  intros Hg Hmin Hf. unfold all_matches.
  rewrite (exec_all_fuel re s Hg Hmin fuel (S (length s)) O) by lia.
  destruct (exec_all_done re s Hg Hmin (S (length s)) O) as (ms & -> & Hms); [lia|]. done.
Qed.

Lemma while_exec_run_bodies pattern content :
  ∀ fuel lastIndex st ms,
    exec_all fuel (regex_ pattern) content lastIndex = Done ms →
    while_exec fuel pattern content lastIndex st = run_bodies (loop_body pattern) ms st.
Proof.
  induction fuel as [|fuel IH]; intros li st ms; simpl; [discriminate|].
  destruct (exec _ _ _) as [[mt|] li']; [|by intros [= <-]].
  destruct (exec_all fuel _ _ _) as [ms'| |] eqn:Ha; simpl; try discriminate.
  intros [= <-]. simpl. destruct (loop_body pattern mt st) as [st'| |]; simpl; [|done..].
  by apply IH.
Qed.

(** ** Captures *)

Lemma matches_sets ic n r :
  ∀ i rest caps j rest' caps',
    matches ic r i rest caps j rest' caps' →
    is_Some (cap_get caps n) ∨ sets n r = true →
    is_Some (cap_get caps' n).
Proof.
  induction r as [|a|r1 IH1 r2 IH2|r1 IH1 r2 IH2|m r1 IH1|m|g a| |];
    intros i rest caps j rest' caps'; simpl.
  - intros (_ & _ & ->) [H|H]; done.
  - intros (c & _ & _ & _ & ->) [H|H]; done.
  - intros (k & restk & capsk & H1 & H2) H.
    eapply IH2; [exact H2|]. destruct H as [H|[H|H]%orb_prop]; auto.
    all: left; eapply IH1; [exact H1|]; auto.
  - intros [Hm|Hm] H.
    + eapply IH1; [exact Hm|]. destruct H as [H|[H _]%andb_prop]; auto.
    + eapply IH2; [exact Hm|]. destruct H as [H|[_ H]%andb_prop]; auto.
  - intros (caps1 & Hm & ->) H. simpl.
    destruct (Nat.eqb_spec m n); [done|].
    eapply IH1; [exact Hm|]. destruct H as [H|H]; auto.
  - intros (-> & _) [H|H]; done.
  - intros (k & _ & _ & _ & _ & ->) [H|H]; done.
  - intros (_ & _ & _ & ->) [H|H]; done.
  - intros (_ & _ & _ & ->) [H|H]; done.
Qed.

Lemma is_match_sets re s mt n :
  is_match re s mt → (Nat.eqb n 0 || sets n (source re)) = true →
  is_Some (match_get mt n).
Proof.
  intros (_ & rest' & Hm & _) H. destruct n as [|n]; [done|]. simpl in *.
  eapply matches_sets; [exact Hm|]. auto.
Qed.

(** ** The links of [parseDownloadLinks] *)

Lemma sortedPatterns_eq : sortedPatterns = DOWNLOAD_LINK_PATTERNS.
Proof. vm_compute. reflexivity. Qed.

Lemma sortedPatterns_ok : forallb pattern_ok sortedPatterns = true.
Proof. vm_compute. reflexivity. Qed.

Lemma loop_body_candidate p content mt st :
  pattern_ok p = true → is_match (regex_ p) content mt →
  loop_body p mt st = Done (add_candidate (candidate p mt) st).
Proof.
  intros Hok Hm. unfold loop_body, candidate, add_candidate, label.
  destruct (match_get mt (urlIndex p)) as [[|c u]|]; [by destruct (bool_decide _)| |done].
  destruct (startsWith (c :: u) (js "http")) eqn:Hs; simpl; rewrite ?Hs;
    destruct (bool_decide (c :: u ∈ processedUrls st)); try done. simpl.
  destruct (textIndex p) as [ti|] eqn:Hti; [|done].
  apply andb_prop in Hok as [_ Hok]. rewrite Hti in Hok.
  destruct (is_match_sets _ _ _ ti Hm Hok) as [t ->]. done.
Qed.

Lemma run_bodies_candidates p content ms :
  pattern_ok p = true → Forall (is_match (regex_ p) content) ms →
  ∀ st, run_bodies (loop_body p) ms st
        = Done (fold_left (λ st c, add_candidate (Some c) st) (omap (candidate p) ms) st).
Proof.
  intros Hok. induction 1 as [|mt ms Hm _ IH]; intros st; simpl; [done|].
  rewrite (loop_body_candidate _ _ _ _ Hok Hm). simpl. rewrite IH.
  destruct (candidate p mt) as [[u l]|]; done.
Qed.

Lemma while_exec_candidates p content fuel st :
  pattern_ok p = true → (length content < fuel)%nat →
  while_exec fuel p content O st
  = Done (fold_left (λ st c, add_candidate (Some c) st)
            (omap (candidate p) (all_matches (regex_ p) content)) st).
Proof.
  intros Hok Hf. pose proof Hok as [[Hg Hmin%Nat.leb_le]%andb_prop _]%andb_prop.
  destruct (all_matches_spec (regex_ p) content fuel Hg Hmin Hf) as [Ha Hms].
  rewrite (while_exec_run_bodies _ _ _ _ _ _ Ha).
  by apply (run_bodies_candidates p content).
Qed.

Lemma forEach_pattern_candidates content fuel :
  (length content < fuel)%nat →
  ∀ ps st, forallb pattern_ok ps = true →
    forEach_pattern fuel ps content st
    = Done (fold_left (λ st c, add_candidate (Some c) st)
              (ps ≫= λ p, omap (candidate p) (all_matches (regex_ p) content)) st).
Proof.
  intros Hf. induction ps as [|p ps IH]; intros st; simpl; [done|].
  intros [Hp Hps]%andb_prop. rewrite (while_exec_candidates _ _ _ _ Hp Hf). simpl.
  rewrite IH by done. by rewrite fold_left_app.
Qed.

Lemma fold_add_candidate cands :
  ∀ st seen, (∀ u, u ∈ processedUrls st ↔ u ∈ seen) →
    links (fold_left (λ st c, add_candidate (Some c) st) cands st)
    = links st ++ (first_seen seen cands).*2.
Proof.
  induction cands as [|[u l] cands IH]; intros st seen Hseen; simpl.
  - by rewrite app_nil_r.
  - destruct (bool_decide_reflect (u ∈ processedUrls st)) as [Hin|Hin];
      destruct (bool_decide_reflect (u ∈ seen)) as [Hin'|Hin']; try (rewrite Hseen in Hin; done).
    + by apply IH.
    + rewrite (IH _ (u :: seen)); simpl.
      * by rewrite <- app_assoc.
      * intros v. rewrite elem_of_union, elem_of_singleton, elem_of_cons, Hseen. done.
Qed.

(** The links found are the first-seen candidates, whatever the fuel above
    the length of the content. *)
Lemma discoverLinks_first_seen content fuel :
  (length content < fuel)%nat →
  discoverLinks fuel content = Done (first_seen [] (candidates content)).*2.
Proof.
  intros Hf. unfold discoverLinks.
  rewrite (forEach_pattern_candidates _ _ Hf _ _ sortedPatterns_ok). simpl.
  rewrite (fold_add_candidate _ _ []); [done|].
  intros u. simpl. rewrite elem_of_nil. set_solver.
Qed.

(** ** Sorting *)

Section SortFacts.
Context {A : Type} (key : A → Z).

Abbreviation by_key := (λ a b : A, key a - key b).
Abbreviation key_le := (λ a b : A, key a ≤ key b).

Lemma sort_insert_Forall (P : A → Prop) x l :
  P x → Forall P l → Forall P (sort_insert by_key x l).
Proof.
  intros Hx. induction 1 as [|y l Hy Hl IH]; simpl.
  - by constructor.
  - destruct (0 <? key x - key y); constructor; auto.
Qed.

Lemma sort_insert_sorted x l :
  StronglySorted key_le l → StronglySorted key_le (sort_insert by_key x l).
Proof.
  induction 1 as [|y l Hl IH Hy]; simpl.
  - repeat constructor.
  - destruct (Z.ltb_spec 0 (key x - key y)).
    + constructor; [done|]. apply sort_insert_Forall; [lia | done].
    + constructor; [by constructor|]. constructor; [lia|].
      eapply Forall_impl; [exact Hy|]. simpl. intros; lia.
Qed.

Lemma Array_sort_sorted l : StronglySorted key_le (Array_sort by_key l).
Proof.
  induction l as [|x l IH]; simpl; [constructor|]. by apply sort_insert_sorted.
Qed.

Lemma sort_insert_filter k x l :
  List.filter (λ a, key a =? k) (sort_insert by_key x l)
  = List.filter (λ a, key a =? k) (x :: l).
Proof.
  induction l as [|y l IH]; [done|]. simpl sort_insert.
  destruct (Z.ltb_spec 0 (key x - key y)); [|done].
  simpl in *. rewrite IH.
  destruct (Z.eqb_spec (key x) k), (Z.eqb_spec (key y) k); try done. lia.
Qed.

(** The sort is stable: the elements of one key keep their order. *)
Lemma Array_sort_stable k l :
  List.filter (λ a, key a =? k) (Array_sort by_key l) = List.filter (λ a, key a =? k) l.
Proof.
  induction l as [|x l IH]; [done|]. simpl Array_sort.
  rewrite sort_insert_filter. simpl. by rewrite IH.
Qed.

Lemma Array_sort_Permutation l : Array_sort by_key l ≡ₚ l.
Proof.
  induction l as [|x l IH]; [done|]. simpl. rewrite <- IH at 2.
  generalize (Array_sort by_key l). clear. intros l.
  induction l as [|y l IH]; [done|]. simpl.
  destruct (0 <? key x - key y); [|done]. rewrite IH. apply Permutation_swap.
Qed.

Lemma Array_sort_id l : StronglySorted key_le l → Array_sort by_key l = l.
Proof.
  induction 1 as [|x l Hl IH Hx]; [done|]. simpl. rewrite IH.
  destruct Hx as [|y l Hy _]; [done|]. simpl.
  destruct (Z.ltb_spec 0 (key x - key y)); [lia | done].
Qed.
End SortFacts.

(** ** Termination of the scans *)

Lemma SmartDashboard_while_exec_done re text_ :
  global re = true → (1 ≤ minlen (source re))%nat →
  ∀ fuel lastIndex links,
    (length text_ - lastIndex < fuel)%nat →
    ∃ links', SmartDashboard.while_exec fuel re text_ lastIndex links = Done links'.
Proof.
  intros Hg Hmin. induction fuel as [|fuel IH]; intros li links Hf; [lia|]. simpl.
  destruct (exec re text_ li) as [[mt|] li'] eqn:He; [|by eexists].
  pose proof (exec_advances _ _ _ _ _ Hg Hmin He). apply IH. lia.
Qed.

Lemma SmartDashboard_forEach_done text_ fuel :
  (length text_ < fuel)%nat →
  ∀ ps links, forallb regexp_ok ps = true →
    ∃ links', SmartDashboard.forEach_pattern fuel ps text_ links = Done links'.
Proof.
  intros Hf. induction ps as [|re ps IH]; intros links; simpl; [by eexists|].
  intros [[Hg Hmin%Nat.leb_le]%andb_prop Hps]%andb_prop.
  destruct (SmartDashboard_while_exec_done re text_ Hg Hmin fuel O links) as [links' ->]; [lia|].
  simpl. by apply IH.
Qed.

Lemma scanned_expressions_ok : forallb regexp_ok scanned_expressions = true.
Proof. vm_compute. reflexivity. Qed.

(** C9: [parseDownloadLinks] terminates on every text, in the utilities and
    in the dashboard: given more steps than the text has code units, each scan
    returns its links; and for every expression that the scans run, a match
    that [exec] returns is not empty and leaves [lastIndex] strictly after
    the [lastIndex] the call started from, within the text. *)
Theorem parseDownloadLinks_terminates (content : jsstring) (fuel : nat) :
  (length content < fuel)%nat →
  (∃ links, TemplateDownloadUtils.parseDownloadLinks_fuel fuel content = Done links) ∧
  (∃ links, SmartDashboard.parseDownloadLinks_fuel fuel content = Done links) ∧
  (∀ re lastIndex mt lastIndex',
     re ∈ scanned_expressions →
     exec re content lastIndex = (Some mt, lastIndex') →
     (m_index mt < m_end mt)%nat ∧ (lastIndex < lastIndex' ≤ length content)%nat).
Proof.
  intros Hf. split; [|split].
  - unfold parseDownloadLinks_fuel. rewrite (discoverLinks_first_seen _ _ Hf). by eexists.
  - apply SmartDashboard_forEach_done; [done|]. vm_compute. reflexivity.
  - intros re li mt li' Hre He.
    pose proof scanned_expressions_ok as Hok. rewrite forallb_forall in Hok.
    apply list_elem_of_In, Hok in Hre. apply andb_prop in Hre as [Hg Hmin%Nat.leb_le].
    split; [|by eapply exec_advances].
    destruct (exec_sound _ _ _ _ _ Hg He) as (_ & _ & ? & _). lia.
Qed.

Lemma parseDownloadLinks_terminates_witness :
  (length (js "[a](http://x) 📥: http://y") < 40)%nat ∧
  (∃ links, TemplateDownloadUtils.parseDownloadLinks_fuel 40
              (js "[a](http://x) 📥: http://y") = Done links) ∧
  (∃ links, SmartDashboard.parseDownloadLinks_fuel 40
              (js "[a](http://x) 📥: http://y") = Done links).
Proof.
  assert (length (js "[a](http://x) 📥: http://y") < 40)%nat as H by (vm_compute; lia).
  split; [exact H|].
  destruct (parseDownloadLinks_terminates (js "[a](http://x) 📥: http://y") 40 H)
    as (H1 & H2 & _).
  split; [exact H1 | exact H2].
Defined.

(** C2: the list that [parseDownloadLinks] returns is sorted ascending by
    priority and holds the links found, those of one priority in the order
    in which they were found; and for the text of the example it is the
    markdown link, of priority 1 and label Click, before the link of the
    emoji pattern, of priority 2 and label Yüklə. *)
Theorem parseDownloadLinks_sorted_stable :
  (∀ content, ∃ found links,
     discoverLinks (S (length content)) content = Done found ∧
     parseDownloadLinks content = Done links ∧
     StronglySorted (λ a b, priority a ≤ priority b) links ∧
     links ≡ₚ found ∧
     ∀ p, List.filter (λ l, priority l =? p) links = List.filter (λ l, priority l =? p) found) ∧
  parseDownloadLinks (js "📥 Yüklə: https://x.test/a.docx and [Click](https://x.test/b.docx)")
  = Done [ {| text := js "Click"; url := js "https://x.test/b.docx"; type := markdown;
              fullMatch := js "[Click](https://x.test/b.docx)"; priority := 1 |};
           {| text := js "Yüklə"; url := js "https://x.test/a.docx"; type := emoji_direct;
              fullMatch := js "📥 Yüklə: https://x.test/a.docx"; priority := 2 |} ].
Proof.
  split; [|vm_compute; reflexivity].
  intros content. unfold parseDownloadLinks, parseDownloadLinks_fuel.
  rewrite (discoverLinks_first_seen content (S (length content))) by lia.
  eexists _, _. split; [done|]. split; [done|].
  split; [apply (Array_sort_sorted priority)|].
  split; [apply (Array_sort_Permutation priority)|].
  intros p. apply (Array_sort_stable priority).
Qed.

(** ** First seen wins *)

Section FirstSeen.
Context {A : Type}.
Implicit Types (cands : list (jsstring * A)) (seen : list jsstring).

Lemma first_seen_Forall (P : jsstring * A → Prop) cands :
  ∀ seen, Forall P cands → Forall P (first_seen seen cands).
Proof.
  induction cands as [|[u l] cands IH]; intros seen; simpl; [done|].
  intros [Hc Hcs]%Forall_cons. destruct (bool_decide _); [|constructor]; auto.
Qed.

Lemma first_seen_sorted (R : relation (jsstring * A)) cands :
  ∀ seen, StronglySorted R cands → StronglySorted R (first_seen seen cands).
Proof.
  induction cands as [|[u l] cands IH]; intros seen; simpl; [done|].
  intros [Hc Hcs]%StronglySorted_cons. destruct (bool_decide _); [by auto|].
  constructor; [by auto|]. by apply first_seen_Forall.
Qed.

Lemma first_seen_subset cands :
  ∀ seen (c : jsstring * A), c ∈ first_seen seen cands → c ∈ cands ∧ c.1 ∉ seen.
Proof.
  induction cands as [|[u l] cands IH]; intros seen c; simpl; [by intros ?%elem_of_nil|].
  destruct (bool_decide_reflect (u ∈ seen)) as [Hin|Hin].
  - intros [? ?]%IH. split; [by right | done].
  - intros [->|[? Hn]%IH]%elem_of_cons; [split; [by left | done]|].
    split; [by right|]. intros ?. apply Hn. by right.
Qed.

Lemma first_seen_NoDup cands : ∀ seen, NoDup (first_seen seen cands).*1.
Proof.
  induction cands as [|[u l] cands IH]; intros seen; simpl; [constructor|].
  destruct (bool_decide _); [by auto|]. csimpl. constructor; [|by auto].
  intros ([v m] & Hv & [_ Hn]%first_seen_subset)%list_elem_of_fmap. simpl in *.
  subst v. apply Hn. by left.
Qed.

(** The first candidate of a key is kept. *)
Lemma first_seen_first (pre : list (jsstring * A)) u (l : A) post :
  ∀ seen, u ∉ pre.*1 → u ∉ seen → (u, l) ∈ first_seen seen (pre ++ (u, l) :: post).
Proof.
  induction pre as [|[v m] pre IH]; intros seen Hpre Hseen; simpl.
  - rewrite bool_decide_eq_false_2 by done. by left.
  - csimpl in Hpre. apply not_elem_of_cons in Hpre as [Hne Hpre].
    destruct (bool_decide_reflect (v ∈ seen)); [by apply IH|].
    right. apply IH; [done|]. by apply not_elem_of_cons.
Qed.
End FirstSeen.

Lemma candidate_inv p mt u l :
  candidate p mt = Some (u, l) →
  match_get mt (urlIndex p) = Some u ∧ u ≠ [] ∧ startsWith u (js "http") = true ∧
  l = {| text := label p mt; url := trim u; type := p_type p; fullMatch := m_0 mt;
         priority := or99 (p_priority p) |}.
Proof.
  unfold candidate. destruct (match_get mt (urlIndex p)) as [[|c v]|]; try done.
  destruct (startsWith _ _) eqn:Hs; [|done]. intros [= <- <-]. done.
Qed.

Lemma candidates_inv content u l :
  (u, l) ∈ candidates content →
  ∃ p mt, p ∈ sortedPatterns ∧ mt ∈ all_matches (regex_ p) content ∧
          candidate p mt = Some (u, l).
Proof.
  unfold candidates. intros (p & Hc & Hp)%list_elem_of_bind.
  apply list_elem_of_omap in Hc as (mt & Hmt & Hc). by exists p, mt.
Qed.

Lemma pattern_blocks_sorted (ms : LinkPattern → list MatchArray) ps :
  StronglySorted (λ p q, or99 (p_priority p) ≤ or99 (p_priority q)) ps →
  StronglySorted (λ a b : jsstring * DownloadLink, priority a.2 ≤ priority b.2)
    (ps ≫= λ p, omap (candidate p) (ms p)).
Proof.
  induction 1 as [|p ps Hps IH Hp]; csimpl; [constructor|].
  apply StronglySorted_app_2; [| |done].
  - intros [u l] [v m] (mt & _ & (_ & _ & _ & ->)%candidate_inv)%list_elem_of_omap
      (q & (mt' & _ & (_ & _ & _ & ->)%candidate_inv)%list_elem_of_omap & Hq)%list_elem_of_bind.
    simpl. rewrite Forall_forall in Hp. by apply Hp.
  - generalize (ms p). intros l. induction l as [|mt l IHl]; csimpl; [constructor|].
    destruct (candidate p mt) as [[u x]|] eqn:Hc; [|done].
    constructor; [done|]. apply Forall_forall.
    intros [v y] (mt' & _ & (_ & _ & _ & ->)%candidate_inv)%list_elem_of_omap.
    apply candidate_inv in Hc as (_ & _ & _ & ->). simpl. lia.
Qed.

Lemma candidates_sorted content :
  StronglySorted (λ a b : jsstring * DownloadLink, priority a.2 ≤ priority b.2)
    (candidates content).
Proof.
  apply pattern_blocks_sorted.
  apply (Array_sort_sorted (λ p, or99 (p_priority p))).
Qed.

Lemma parseDownloadLinks_fuel_first_seen content fuel :
  (length content < fuel)%nat →
  parseDownloadLinks_fuel fuel content = Done (first_seen [] (candidates content)).*2.
Proof.
  intros Hf. unfold parseDownloadLinks_fuel.
  rewrite (discoverLinks_first_seen _ _ Hf). simpl.
  rewrite (Array_sort_id priority); [done|].
  apply (StronglySorted_fmap snd (λ a b : jsstring * DownloadLink, priority a.2 ≤ priority b.2));
    [done|].
  apply first_seen_sorted, candidates_sorted.
Qed.

(** The scan of the dashboard keeps every match: it returns two links with
    the same url for a text with the same markdown target twice. *)
Lemma SmartDashboard_parseDownloadLinks_same_url_twice :
  SmartDashboard.parseDownloadLinks (js "[a](http://x) [b](http://x)")
  = Done [ {| SmartDashboard.text := js "a"; SmartDashboard.url := js "http://x";
              SmartDashboard.fullMatch := js "[a](http://x)";
              SmartDashboard.type := markdown |};
           {| SmartDashboard.text := js "b"; SmartDashboard.url := js "http://x";
              SmartDashboard.fullMatch := js "[b](http://x)";
              SmartDashboard.type := markdown |} ]
  ∧ ¬ (∀ text_ links, SmartDashboard.parseDownloadLinks text_ = Done links →
                      NoDup (SmartDashboard.url <$> links)).
Proof.
  assert (SmartDashboard.parseDownloadLinks (js "[a](http://x) [b](http://x)")
          = Done [ {| SmartDashboard.text := js "a"; SmartDashboard.url := js "http://x";
                      SmartDashboard.fullMatch := js "[a](http://x)";
                      SmartDashboard.type := markdown |};
                   {| SmartDashboard.text := js "b"; SmartDashboard.url := js "http://x";
                      SmartDashboard.fullMatch := js "[b](http://x)";
                      SmartDashboard.type := markdown |} ]) as Heq
    by (vm_compute; reflexivity).
  split; [exact Heq|].
  intros H. apply H in Heq. csimpl in Heq.
  apply NoDup_cons in Heq as [Heq _]. apply Heq. by left.
Qed.

(** C1, on the code: the set of processed urls holds the captures as they
    are, and the links hold their trimmed form; for a text with the same
    markdown target twice, once with a space before the closing parenthesis,
    [parseDownloadLinks] returns two links with the same url. *)
Lemma parseDownloadLinks_trimmed_url_twice :
  parseDownloadLinks (js "[a](http://x) [b](http://x )")
  = Done [ {| text := js "a"; url := js "http://x"; type := markdown;
              fullMatch := js "[a](http://x)"; priority := 1 |};
           {| text := js "b"; url := js "http://x"; type := markdown;
              fullMatch := js "[b](http://x )"; priority := 1 |} ].
Proof. vm_compute. reflexivity. Qed.

(** First seen wins: in the utilities, the list returned is the list of the
    candidates of the text, in the order of the scan (the patterns by
    ascending priority, the matches of a pattern from left to right), where
    of the candidates with the same captured url only the first is kept: no
    two links returned come from the same captured url, the link of a
    captured url is that of its first candidate, with the kind, label and
    priority of its pattern, and its [url] is the capture trimmed.  A url in
    a markdown link and again after a keyword is returned once, as the
    markdown link. *)
Theorem parseDownloadLinks_first_seen_wins :
  (∀ content,
     let kept := first_seen [] (candidates content) in
     parseDownloadLinks content = Done kept.*2 ∧
     NoDup kept.*1 ∧
     (∀ u l, (u, l) ∈ kept → (u, l) ∈ candidates content) ∧
     (∀ pre u l post,
        candidates content = pre ++ (u, l) :: post → u ∉ pre.*1 → (u, l) ∈ kept) ∧
     StronglySorted (λ a b, priority a.2 ≤ priority b.2) (candidates content) ∧
     (∀ u l, (u, l) ∈ candidates content →
        ∃ p mt, p ∈ DOWNLOAD_LINK_PATTERNS ∧ mt ∈ all_matches (regex_ p) content ∧
                match_get mt (urlIndex p) = Some u ∧
                l = {| text := label p mt; url := trim u; type := p_type p;
                       fullMatch := m_0 mt; priority := or99 (p_priority p) |}) ∧
     (∀ p fuel, p ∈ DOWNLOAD_LINK_PATTERNS → (length content < fuel)%nat →
        exec_all fuel (regex_ p) content O = Done (all_matches (regex_ p) content))) ∧
  parseDownloadLinks (js "[Doc](https://x.test/a.docx) yükləmə linki: https://x.test/a.docx")
  = Done [ {| text := js "Doc"; url := js "https://x.test/a.docx"; type := markdown;
              fullMatch := js "[Doc](https://x.test/a.docx)"; priority := 1 |} ].
Proof.
  split; [|vm_compute; reflexivity].
  intros content kept. subst kept. split; [|split; [|split; [|split; [|split; [|split]]]]].
  - apply parseDownloadLinks_fuel_first_seen. lia.
  - apply first_seen_NoDup.
  - intros u l [H _]%first_seen_subset. done.
  - intros pre u l post Heq Hpre. rewrite Heq.
    apply first_seen_first; [done|]. apply not_elem_of_nil.
  - apply candidates_sorted.
  - intros u l (p & mt & Hp & Hmt & (Hu & _ & _ & Hl)%candidate_inv)%candidates_inv.
    rewrite sortedPatterns_eq in Hp. by exists p, mt.
  - intros p fuel Hp Hf. rewrite <- sortedPatterns_eq in Hp.
    pose proof sortedPatterns_ok as Hok. rewrite forallb_forall in Hok.
    apply list_elem_of_In, Hok in Hp.
    apply andb_prop in Hp as [[Hg Hmin%Nat.leb_le]%andb_prop _].
    by apply all_matches_spec.
Qed.

Example parseDownloadLinks_first_seen_example :
  candidates (js "[Doc](https://x.test/a.docx) yükləmə linki: https://x.test/a.docx")
  = [] ++ (js "https://x.test/a.docx",
           {| text := js "Doc"; url := js "https://x.test/a.docx"; type := markdown;
              fullMatch := js "[Doc](https://x.test/a.docx)"; priority := 1 |})
       :: [ (js "https://x.test/a.docx",
             {| text := js "yükləmə linki"; url := js "https://x.test/a.docx";
                type := keyword_direct;
                fullMatch := js "yükləmə linki: https://x.test/a.docx"; priority := 4 |}) ] ∧
  (js "https://x.test/a.docx",
   {| text := js "Doc"; url := js "https://x.test/a.docx"; type := markdown;
      fullMatch := js "[Doc](https://x.test/a.docx)"; priority := 1 |})
  ∈ first_seen []
      (candidates (js "[Doc](https://x.test/a.docx) yükləmə linki: https://x.test/a.docx")).
Proof.
  assert (candidates (js "[Doc](https://x.test/a.docx) yükləmə linki: https://x.test/a.docx")
          = [] ++ (js "https://x.test/a.docx",
                   {| text := js "Doc"; url := js "https://x.test/a.docx"; type := markdown;
                      fullMatch := js "[Doc](https://x.test/a.docx)"; priority := 1 |})
               :: [ (js "https://x.test/a.docx",
                     {| text := js "yükləmə linki"; url := js "https://x.test/a.docx";
                        type := keyword_direct;
                        fullMatch := js "yükləmə linki: https://x.test/a.docx";
                        priority := 4 |}) ]) as H
    by (vm_compute; reflexivity).
  split; [exact H|].
  destruct (proj1 parseDownloadLinks_first_seen_wins
              (js "[Doc](https://x.test/a.docx) yükləmə linki: https://x.test/a.docx"))
    as (_ & _ & _ & Hfirst & _).
  exact (Hfirst [] _ _ _ H (not_elem_of_nil _)).
Defined.

(** ** The urls of the links *)

Lemma has_http_url_drop d :
  ∀ s, url_shape_at (drop d s) = true → has_http_url s = true.
Proof.
  induction d as [|d IH]; intros s H.
  - rewrite drop_0 in H. destruct s; cbn [has_http_url]; rewrite H; done.
  - destruct s as [|c s]; [done|]. simpl in H. apply IH in H.
    cbn [has_http_url]. rewrite H. apply orb_true_r.
Qed.

(** A capture of a match is what was there before the match or the text that
    the body of its group matched, somewhere in the input. *)
Lemma matches_capture ic n r :
  ∀ i rest caps j rest' caps' u,
    matches ic r i rest caps j rest' caps' →
    cap_get caps' n = Some u →
    cap_get caps n = Some u ∨
    ∃ r1 d i1 j1 rest1 c1 c1',
      r1 ∈ group_bodies n r ∧ (d ≤ length rest)%nat ∧
      matches ic r1 i1 (drop d rest) c1 j1 rest1 c1' ∧
      u = take (j1 - i1) (drop d rest).
Proof.
  induction r as [|a|r1 IH1 r2 IH2|r1 IH1 r2 IH2|m r1 IH1|m|g a| |];
    intros i rest caps j rest' caps' u; simpl.
  - intros (_ & _ & ->) H. by left.
  - intros (c & _ & _ & _ & ->) H. by left.
  - intros (k & restk & capsk & H1 & H2) Hu.
    destruct (IH2 _ _ _ _ _ _ _ H2 Hu) as [Hk|(b & d & i1 & j1 & rest1 & c1 & c1' & Hb & Hd & Hm & ->)].
    + destruct (IH1 _ _ _ _ _ _ _ H1 Hk) as [?|(b & d & i1 & j1 & rest1 & c1 & c1' & Hb & Hd & Hm & ->)];
        [by left|].
      right. exists b, d, i1, j1, rest1, c1, c1'. rewrite elem_of_app. auto.
    + right. apply matches_consumes in H1 as (n1 & Hn1 & -> & ->).
      rewrite length_drop in Hd. rewrite drop_drop in Hm. rewrite drop_drop.
      exists b, (n1 + d)%nat, i1, j1, rest1, c1, c1'. rewrite elem_of_app.
      split; [auto|]. split; [lia|]. done.
  - intros [Hm|Hm] Hu.
    + destruct (IH1 _ _ _ _ _ _ _ Hm Hu) as [?|(b & d & i1 & j1 & rest1 & c1 & c1' & Hb & Hd & Hm' & ->)];
        [by left|].
      right. exists b, d, i1, j1, rest1, c1, c1'. rewrite elem_of_app. auto.
    + destruct (IH2 _ _ _ _ _ _ _ Hm Hu) as [?|(b & d & i1 & j1 & rest1 & c1 & c1' & Hb & Hd & Hm' & ->)];
        [by left|].
      right. exists b, d, i1, j1, rest1, c1, c1'. rewrite elem_of_app. auto.
  - intros (caps1 & Hm & ->). simpl. destruct (Nat.eqb_spec m n) as [->|Hne].
    + intros [= <-]. right. exists r1, O, i, j, rest', caps, caps1.
      rewrite drop_0. split; [by left|]. split; [lia | done].
    + intros Hu.
      destruct (IH1 _ _ _ _ _ _ _ Hm Hu) as [?|(b & d & i1 & j1 & rest1 & c1 & c1' & Hb & Hd & Hm' & ->)];
        [by left|].
      right. by exists b, d, i1, j1, rest1, c1, c1'.
  - intros (-> & _) H. by left.
  - intros (k & _ & _ & _ & _ & ->) H. by left.
  - intros (_ & _ & _ & ->) H. by left.
  - intros (_ & _ & _ & ->) H. by left.
Qed.

Lemma startsWith_take n s p :
  startsWith (take n s) p = true → startsWith s p = true.
Proof.
  revert n s; induction p as [|a p IH]; intros n s; [done|].
  destruct n as [|n], s as [|c s]; simpl; try done.
  intros [-> H]%andb_prop. by rewrite (IH _ _ H).
Qed.

Lemma canonicalize_punct a c :
  a = 58 ∨ a = 47 → canonicalize a = canonicalize c → c = a.
Proof.
  unfold canonicalize. intros [-> | ->]; simpl;
    repeat match goal with
           | |- context [if ?b then _ else _] => destruct b eqn:?
           end; lia.
Qed.

Lemma char_eqb_punct ic a c :
  a = 58 ∨ a = 47 → char_eqb ic a c = true → c = a.
Proof.
  intros Ha. unfold char_eqb. destruct ic; intros H%Z.eqb_eq; [|done].
  by apply canonicalize_punct.
Qed.

Lemma char_eqb_s ic c : char_eqb ic 115 c = true → c = 115 ∨ c = 83.
Proof.
  unfold char_eqb. destruct ic; intros H%Z.eqb_eq; [|by left].
  revert H. unfold canonicalize. simpl.
  repeat match goal with
         | |- context [if ?b then _ else _] => destruct b eqn:?
         end; lia.
Qed.

Ltac break_matches :=
  repeat match goal with
         | H : ∃ _, _ |- _ => destruct H
         | H : _ ∧ _ |- _ => destruct H
         end;
  subst.

(** What the body [https?:\/\/...] of the url groups matches starts with the
    shape of a url as soon as it starts with [http] in lower case. *)
Lemma url_body_shape ic a i s caps j rest' caps' :
  matches ic (Seq TemplateDownloadUtils.http_prefix (Plus a)) i s caps j rest' caps' →
  startsWith (take (j - i) s) (js "http") = true →
  url_shape_at s = true.
Proof.
  intros Hm Hs%startsWith_take.
  unfold http_prefix, lit, Opt, Plus in Hm.
  change (js "http") with [104; 116; 116; 112] in Hm.
  change (js "s") with [115] in Hm. change (js "://") with [58; 47; 47] in Hm.
  simpl in Hm. break_matches.
  repeat match goal with
         | H : char_eqb _ 58 _ = true |- _ => apply char_eqb_punct in H as ->; [|by left]
         | H : char_eqb _ 47 _ = true |- _ => apply char_eqb_punct in H as ->; [|by right]
         end.
  unfold url_shape_at. rewrite Hs. cbn [andb drop].
  match goal with H : _ ∨ _ |- _ => destruct H as [H|H] end; break_matches.
  - match goal with H : char_eqb _ 115 _ = true |- _ => apply char_eqb_s in H as [-> | ->] end;
      by vm_compute.
  - by vm_compute.
Qed.

Lemma url_capture_shape p content mt u :
  p ∈ DOWNLOAD_LINK_PATTERNS → is_match (regex_ p) content mt →
  match_get mt (urlIndex p) = Some u → startsWith u (js "http") = true →
  has_http_url content = true.
Proof.
  intros Hp (_ & rest' & Hm & _) Hu Hs.
  assert (∃ n, cap_get (m_groups mt) n = Some u ∧
               ∃ a, group_bodies n (source (regex_ p)) = [Seq http_prefix (Plus a)])
    as (n & Hn & a & Hb).
  { unfold DOWNLOAD_LINK_PATTERNS in Hp.
    repeat (apply elem_of_cons in Hp as [-> | Hp]); [..|by apply elem_of_nil in Hp];
      (eexists; split; [exact Hu|]); eexists; vm_compute; reflexivity. }
  destruct (matches_capture _ n _ _ _ _ _ _ _ _ Hm Hn)
    as [?|(b & d & i1 & j1 & rest1 & c1 & c1' & Hin & Hd & Hm' & ->)]; [done|].
  rewrite Hb in Hin. apply list_elem_of_singleton in Hin as ->.
  apply url_body_shape in Hm'; [|done].
  rewrite drop_drop in Hm'. by apply has_http_url_drop in Hm'.
Qed.

Lemma candidates_no_url content :
  has_http_url content = false → candidates content = [].
Proof.
  intros Hno. destruct (candidates content) as [|[u l] cands] eqn:Hc; [done|].
  assert ((u, l) ∈ candidates content) as Hin by (rewrite Hc; by left).
  apply candidates_inv in Hin as (p & mt & Hp & Hmt & (Hu & _ & Hs & _)%candidate_inv).
  pose proof sortedPatterns_ok as Hok. rewrite forallb_forall in Hok.
  pose proof Hp as Hp'. apply list_elem_of_In, Hok in Hp'.
  apply andb_prop in Hp' as [[Hg Hmin%Nat.leb_le]%andb_prop _].
  destruct (all_matches_spec (regex_ p) content (S (length content)) Hg Hmin) as [_ Hms]; [lia|].
  rewrite Forall_forall in Hms. rewrite sortedPatterns_eq in Hp.
  rewrite (url_capture_shape p content mt u Hp (Hms _ Hmt) Hu Hs) in Hno. done.
Qed.

Lemma trimEnd_snoc s c :
  trimEnd (s ++ [c]) = if is_space c then trimEnd s else s ++ [c].
Proof.
  unfold trimEnd. rewrite rev_app_distr. simpl.
  destruct (is_space c); [done|]. simpl. by rewrite rev_involutive.
Qed.

Lemma startsWith_snoc c : ∀ p s,
  c ∉ p → startsWith (s ++ [c]) p = true → startsWith s p = true.
Proof.
  induction p as [|a p IH]; intros s Hc; [done|].
  apply not_elem_of_cons in Hc as [Hne Hc].
  destruct s as [|x s]; simpl.
  - intros [Ha%Z.eqb_eq _]%andb_prop. done.
  - intros [-> H]%andb_prop. simpl. by apply IH.
Qed.

Lemma trimEnd_startsWith p : ∀ s,
  Forall (λ c, is_space c = false) p →
  startsWith s p = true → startsWith (trimEnd s) p = true.
Proof.
  intros s Hp. induction s as [|c s IH] using rev_ind; [done|].
  rewrite trimEnd_snoc. destruct (is_space c) eqn:Hc; [|done].
  intros H. apply IH. eapply startsWith_snoc; [|exact H].
  intros Hin. rewrite Forall_forall in Hp. rewrite (Hp _ Hin) in Hc. done.
Qed.

Lemma trim_http u :
  startsWith u (js "http") = true →
  trim u ≠ [] ∧ startsWith (trim u) (js "http") = true.
Proof.
  intros H. assert (startsWith (trim u) (js "http") = true) as Ht.
  { unfold trim. apply trimEnd_startsWith; [by repeat constructor|].
    destruct u as [|c u]; [done|]. simpl.
    assert (c = 104) as -> by (simpl in H; apply andb_prop in H as [?%Z.eqb_eq _]; done).
    done. }
  split; [|done]. intros Hnil. rewrite Hnil in Ht. done.
Qed.

(** C8: a text without a substring of the shape of an http(s) url ([http],
    then [s] in either case or nothing, then [://]) has no links; every link
    returned has a url that is not empty and begins with [http]; and a match
    whose url capture is undefined, empty or does not begin with [http]
    leaves the links as they are, without an error. *)
Theorem parseDownloadLinks_urls (content : jsstring) :
  (has_http_url content = false → parseDownloadLinks content = Done []) ∧
  (∃ links, parseDownloadLinks content = Done links ∧
            Forall (λ l, url l ≠ [] ∧ startsWith (url l) (js "http") = true) links) ∧
  (∀ pattern mt st,
     valid_capture (match_get mt (urlIndex pattern)) = false →
     loop_body pattern mt st = Done st).
Proof.
  split; [|split].
  - intros Hno. unfold parseDownloadLinks.
    rewrite parseDownloadLinks_fuel_first_seen by lia.
    by rewrite (candidates_no_url _ Hno).
  - unfold parseDownloadLinks. rewrite parseDownloadLinks_fuel_first_seen by lia.
    eexists. split; [done|]. apply Forall_fmap, Forall_forall.
    intros [u l] [Hin _]%first_seen_subset.
    apply candidates_inv in Hin as (p & mt & _ & _ & (_ & _ & Hs & ->)%candidate_inv).
    simpl. by apply trim_http.
  - intros pattern mt st. unfold valid_capture, loop_body.
    destruct (match_get mt (urlIndex pattern)) as [[|c u]|]; [by destruct (bool_decide _)| |done].
    intros ->. simpl. by destruct (bool_decide _).
Qed.

Lemma parseDownloadLinks_urls_witness :
  has_http_url (js "📥 HTTP://X.TEST/A.DOCX") = false ∧
  parseDownloadLinks (js "📥 HTTP://X.TEST/A.DOCX") = Done [] ∧
  ∀ pattern st,
    urlIndex pattern = 1%nat →
    loop_body pattern
      {| m_index := 0; m_end := 22; m_0 := js "📥 HTTP://X.TEST/A.DOCX";
         m_groups := [(1%nat, js "HTTP://X.TEST/A.DOCX")] |} st
    = Done st.
Proof.
  assert (has_http_url (js "📥 HTTP://X.TEST/A.DOCX") = false) as H
    by (vm_compute; reflexivity).
  destruct (parseDownloadLinks_urls (js "📥 HTTP://X.TEST/A.DOCX")) as (H1 & _ & H3).
  split; [exact H|]. split; [exact (H1 H)|].
  intros pattern st Hu. apply H3. rewrite Hu. vm_compute. reflexivity.
Defined.

(** ** Downloads *)

Section DownloadCases.
Context (host : Host) (url : jsstring) (filename : option jsstring).

#[local] Arguments includes : simpl never.
#[local] Arguments js : simpl never.
#[local] Arguments app : simpl never.

Lemma download_fetch_failed e :
  fetch host url = inl e → downloadFromUrl host url filename = failed url e.
Proof. intros H. unfold downloadFromUrl. rewrite H. reflexivity. Qed.

Lemma download_not_ok response :
  fetch host url = inr response → ok response = false →
  downloadFromUrl host url filename = failed url (http_error response).
Proof. intros H Hok. unfold downloadFromUrl. rewrite H. simpl. rewrite Hok. reflexivity. Qed.

Lemma download_body_failed response e :
  fetch host url = inr response → ok response = true → body response = inl e →
  downloadFromUrl host url filename = failed url e.
Proof.
  intros H Hok Hb. unfold downloadFromUrl. rewrite H. simpl. rewrite Hok, Hb. reflexivity.
Qed.

Lemma download_given_name response blob name :
  fetch host url = inr response → ok response = true → body response = inr blob →
  filename = Some name → name ≠ [] →
  downloadFromUrl host url filename = saved url (ensure_extension name) blob.
Proof.
  intros H Hok Hb -> Hne. unfold downloadFromUrl, saved, ensure_extension.
  rewrite H. simpl. rewrite Hok, Hb. destruct name as [|c name]; [done|]. reflexivity.
Qed.

Lemma download_header_name response blob name :
  fetch host url = inr response → ok response = true → body response = inr blob →
  truthy filename = false → header_name response = Some name →
  downloadFromUrl host url filename = saved url (ensure_extension name) blob.
Proof.
  intros H Hok Hb Hf Hh. unfold downloadFromUrl, saved, ensure_extension.
  rewrite H. simpl. rewrite Hok, Hb, Hf. simpl. unfold header_name in Hh.
  destruct (contentDisposition response) as [[|c cd]|]; try done.
  destruct (header_filename (c :: cd)) as [[|d name']|]; try done.
  injection Hh as <-. reflexivity.
Qed.

Lemma download_no_name_cases response blob :
  fetch host url = inr response → ok response = true → body response = inr blob →
  truthy filename = false → header_name response = None →
  downloadFromUrl host url filename
  = match pathname host url with
    | inl e => failed url e
    | inr urlPath => saved url (ensure_extension (path_name urlPath)) blob
    end.
Proof.
  intros H Hok Hb Hf Hh. unfold downloadFromUrl, saved, path_name.
  rewrite H. simpl. rewrite Hok, Hb, Hf. simpl. unfold header_name in Hh.
  destruct (contentDisposition response) as [[|c cd]|];
    [| destruct (header_filename (c :: cd)) as [[|d name']|]; [|done|] |];
    rewrite ?Hf; simpl;
    (destruct (pathname host url) as [e|urlPath]; [reflexivity|]); simpl;
    destruct (pop (split urlPath 47)) as [|x last]; reflexivity.
Qed.
End DownloadCases.






(** C3, on the code: for a response in the success range whose body has size
    zero, [downloadFromUrl] hands the empty blob to the page under the name
    of the url and returns [true], while [handleDownloadFromLink] of the
    dashboard raises its empty-file error, hands nothing to the page, and
    reports the error in a toast. *)
Lemma downloadFromUrl_saves_empty_body :
  downloadFromUrl host_empty_body (js "https://x.test/files/a.docx") None
  = ([Fetch (js "https://x.test/files/a.docx");
      CreateObjectURL {| size := 0; blob_type := [] |};
      Click (js "a.docx") {| size := 0; blob_type := [] |};
      SetTimeout 100],
     Done true) ∧
  SmartDashboard.handleDownloadFromLink host_empty_body (js "https://x.test/files/a.docx") None
  = ([ConsoleLog (js "Downloading from URL: https://x.test/files/a.docx");
      Fetch (js "https://x.test/files/a.docx");
      ConsoleError (js "Download error:") (Error (js "Boş fayl alındı"));
      ToastError (js "Yükləmə xətası: Boş fayl alındı")],
     Done tt).
Proof. split; vm_compute; reflexivity. Qed.

(** ** Global replacement *)

Lemma run_length_app p run tail :
  forallb p run = true → run_length p tail = O →
  run_length p (run ++ tail) = length run.
Proof.
  induction run as [|c run IH]; simpl; [done|].
  intros [-> H]%andb_prop Ht. by rewrite IH.
Qed.

Lemma star_greedy_all p : ∀ rest i,
  star_greedy p i rest (λ j _, Some j) = Some (i + run_length p rest)%nat.
Proof.
  induction rest as [|c rest IH]; intros i; simpl.
  - f_equal. lia.
  - destruct (p c); [|f_equal; lia]. rewrite IH. f_equal. lia.
Qed.

(** Where [a{n,}] matches at the head of the input, with nothing after it in
    the pattern: it takes the whole run, when the run has [n] units. *)
Lemma rmatch_AtLeast ic a n : ∀ rest i caps,
  rmatch ic (AtLeast n a) i rest caps (λ j _ _, Some j)
  = if (n <=? run_length (atom_matches ic a) rest)%nat
    then Some (i + run_length (atom_matches ic a) rest)%nat else None.
Proof.
  induction n as [|n IH]; intros rest i caps; simpl.
  - apply star_greedy_all.
  - destruct rest as [|c rest]; [done|]. simpl.
    destruct (atom_matches ic a c); [|done]. rewrite IH.
    destruct (n <=? _)%nat; [|done]. f_equal. lia.
Qed.

Lemma replace_scan_skip ic r rep : ∀ k rest i,
  (k ≤ length rest)%nat →
  replace_scan ic r rep i rest k = replace_scan ic r rep (i + k) (drop k rest) O.
Proof.
  induction k as [|k IH]; intros rest i Hk.
  - by rewrite Nat.add_0_r, drop_0.
  - destruct rest as [|c rest]; simpl in *; [lia|].
    rewrite IH by lia. f_equal. lia.
Qed.

Section ReplaceRuns.
Context (ic : bool) (a : atom) (n : nat) (rep : jsstring).
Hypothesis n_pos : (1 ≤ n)%nat.

Abbreviation p := (atom_matches ic a).
Abbreviation scan i rest := (replace_scan ic (AtLeast n a) rep i rest O).

Lemma scan_nil i : scan i [] = [].
Proof.
  simpl. rewrite rmatch_AtLeast. simpl.
  destruct (Nat.leb_spec n 0); [lia | done].
Qed.

(** A code unit outside the class is copied. *)
Lemma scan_other i c rest : p c = false → scan i (c :: rest) = c :: scan (S i) rest.
Proof.
  intros Hc. simpl. rewrite rmatch_AtLeast. simpl. rewrite Hc.
  destruct (Nat.leb_spec n 0); [lia | done].
Qed.

(** A run of [n] units or more is replaced as a whole. *)
Lemma scan_long_run i run tail :
  forallb p run = true → run_length p tail = O → (n ≤ length run)%nat →
  scan i (run ++ tail) = rep ++ scan (i + length run)%nat tail.
Proof.
  intros Hrun Htail Hn.
  destruct run as [|c run]; [simpl in Hn; lia|]. simpl app.
  cbn [replace_scan]. rewrite rmatch_AtLeast.
  change (c :: run ++ tail) with ((c :: run) ++ tail).
  rewrite (run_length_app _ _ _ Hrun Htail).
  destruct (Nat.leb_spec n (length (c :: run))); [|lia].
  simpl length. destruct (Nat.eqb_spec (i + S (length run)) i); [lia|].
  f_equal. rewrite replace_scan_skip by (rewrite length_app; lia).
  replace (i + S (length run) - i - 1)%nat with (length run) by lia.
  rewrite drop_app_length. f_equal. lia.
Qed.

(** A shorter run is copied. *)
Lemma scan_short_run run : ∀ i tail,
  forallb p run = true → run_length p tail = O → (length run < n)%nat →
  scan i (run ++ tail) = run ++ scan (i + length run)%nat tail.
Proof.
  induction run as [|c run IH]; intros i tail Hrun Htail Hn.
  - simpl. by rewrite Nat.add_0_r.
  - simpl app. cbn [replace_scan]. rewrite rmatch_AtLeast.
    change (c :: run ++ tail) with ((c :: run) ++ tail).
    rewrite (run_length_app _ _ _ Hrun Htail).
    destruct (Nat.leb_spec n (length (c :: run))); [lia|].
    simpl in Hrun, Hn. apply andb_prop in Hrun as [_ Hrun].
    simpl. f_equal. rewrite (IH (S i)) by (done || lia).
    do 2 f_equal. lia.
Qed.
End ReplaceRuns.

(** Induction on a string by its runs of units of a class. *)
Lemma run_ind (p : Z → bool) (P : jsstring → Prop) :
  P [] →
  (∀ c rest, p c = false → P rest → P (c :: rest)) →
  (∀ run tail, run ≠ [] → forallb p run = true → run_length p tail = O →
               P tail → P (run ++ tail)) →
  ∀ s, P s.
Proof.
  intros Hnil Hother Hrun.
  assert (∀ t, forallb p (take (run_length p t) t) = true ∧
               run_length p (drop (run_length p t) t) = O) as Hsplit.
  { induction t as [|x t [IH1 IH2]]; simpl; [done|].
    destruct (p x) eqn:Hx; simpl; [by rewrite Hx|]. by rewrite Hx. }
  assert (∀ m s, (length s ≤ m)%nat → P s) as H; [|by eauto].
  induction m as [|m IH]; intros [|c s] Hm; simpl in Hm; try done; [lia|].
  destruct (p c) eqn:Hc.
  - rewrite <- (take_drop (run_length p (c :: s)) (c :: s)).
    destruct (Hsplit (c :: s)) as [H1 H2].
    apply Hrun; try done.
    + simpl. by rewrite Hc.
    + apply IH. rewrite length_drop. simpl. rewrite Hc. simpl. lia.
  - apply Hother; [done|]. apply IH. lia.
Qed.

Lemma head_is_run p run tail :
  run ≠ [] → forallb p run = true → head_is p (run ++ tail) = true.
Proof. destruct run as [|c run]; [done|]. simpl. by intros _ [-> _]%andb_prop. Qed.

Lemma head_is_no_run p tail : run_length p tail = O → head_is p tail = false.
Proof. destruct tail as [|c tail]; [done|]. simpl. by destruct (p c). Qed.

Section CollapseRuns.
Context (ic : bool) (a : atom) (r0 : Z).

Abbreviation p2 := (atom_matches ic a).
Abbreviation scan2 i rest := (replace_scan ic (AtLeast 2 a) [r0] i rest O).

(** [s.replace(/a{2,}/g, r0)]: no two units of the class of [a] are left
    in a row. *)
Lemma collapse_no_adjacent : ∀ rest i,
  has_adjacent p2 (scan2 i rest) = false ∧
  (head_is p2 (scan2 i rest) = true → head_is p2 rest = true).
Proof.
  intros rest. induction rest as [|c rest Hc IH|run tail Hne Hrun Htail IH] using (run_ind p2);
    intros i.
  - by rewrite scan_nil by lia.
  - rewrite scan_other by (lia || done). destruct (IH (S i)) as [IH1 IH2].
    cbn [has_adjacent head_is]. rewrite Hc, IH1. done.
  - destruct (IH (i + length run)%nat) as [IH1 IH2].
    assert (head_is p2 (scan2 (i + length run)%nat tail) = false) as Hhd.
    { apply not_true_is_false. intros E%IH2.
      by rewrite (head_is_no_run _ _ Htail) in E. }
    rewrite head_is_run by done.
    destruct (Nat.le_gt_cases 2 (length run)) as [Hlen|Hlen].
    + rewrite scan_long_run by (lia || done). cbn [has_adjacent head_is app]. rewrite Hhd, IH1.
      by rewrite andb_false_r.
    + rewrite scan_short_run by (lia || done).
      destruct run as [|c [|d run]]; [done| |simpl in Hlen; lia].
      cbn [has_adjacent head_is app]. rewrite Hhd, IH1. by rewrite andb_false_r.
Qed.

Lemma collapse_Forall (P : Z → Prop) : P r0 → ∀ rest i,
  Forall P rest → Forall P (scan2 i rest).
Proof.
  intros Hr0 rest.
  induction rest as [|c rest Hc IH|run tail Hne Hrun Htail IH] using (run_ind p2);
    intros i.
  - by rewrite scan_nil by lia.
  - rewrite scan_other by (lia || done). intros [H1 H2]%Forall_cons. constructor; auto.
  - intros [H1 H2]%Forall_app.
    destruct (Nat.le_gt_cases 2 (length run)) as [Hlen|Hlen].
    + rewrite scan_long_run by (lia || done). constructor; auto.
    + rewrite scan_short_run by (lia || done). apply Forall_app. auto.
Qed.
End CollapseRuns.

Section ReplaceRunsByOther.
Context (ic : bool) (a : atom) (r0 : Z).
Hypothesis r0_out : atom_matches ic a r0 = false.

Abbreviation p1 := (atom_matches ic a).
Abbreviation scan1 i rest := (replace_scan ic (AtLeast 1 a) [r0] i rest O).

(** [s.replace(/a+/g, r0)], with [r0] outside the class of [a]: no unit of
    the class is left, and where [s] has no [r0], no two [r0] are left in
    a row. *)
Lemma replace_runs_spec : ∀ rest i,
  Forall (λ c, p1 c = false) (scan1 i rest) ∧
  (r0 ∉ rest →
   has_adjacent (Z.eqb r0) (scan1 i rest) = false ∧
   (head_is (Z.eqb r0) (scan1 i rest) = true → head_is p1 rest = true)).
Proof.
  intros rest. induction rest as [|c rest Hc IH|run tail Hne Hrun Htail IH] using (run_ind p1);
    intros i.
  - by rewrite scan_nil by lia.
  - rewrite scan_other by (lia || done). destruct (IH (S i)) as [IH1 IH2].
    split; [by constructor|]. intros [Hne Hnin]%not_elem_of_cons.
    destruct (IH2 Hnin) as [IH3 IH4]. cbn [has_adjacent head_is]. rewrite IH3.
    destruct (Z.eqb_spec r0 c); [done|]. done.
  - destruct (IH (i + length run)%nat) as [IH1 IH2].
    assert (1 ≤ length run)%nat by (destruct run; [done | simpl; lia]).
    rewrite scan_long_run by (lia || done).
    split; [by constructor|]. intros [_ Hnin]%not_elem_of_app.
    destruct (IH2 Hnin) as [IH3 IH4].
    rewrite (head_is_run p1 run tail) by done.
    assert (head_is (Z.eqb r0) (scan1 (i + length run)%nat tail) = false) as Hhd.
    { apply not_true_is_false. intros E%IH4.
      by rewrite (head_is_no_run _ _ Htail) in E. }
    cbn [has_adjacent head_is app]. rewrite Hhd, IH3. by rewrite andb_false_r.
Qed.

Lemma replace_runs_Forall (P : Z → Prop) : P r0 → ∀ rest i,
  Forall (λ c, p1 c = false → P c) rest → Forall P (scan1 i rest).
Proof.
  intros Hr0 rest.
  induction rest as [|c rest Hc IH|run tail Hne Hrun Htail IH] using (run_ind p1);
    intros i.
  - by rewrite scan_nil by lia.
  - rewrite scan_other by (lia || done). intros [H1 H2]%Forall_cons. constructor; auto.
  - intros [H1 H2]%Forall_app.
    assert (1 ≤ length run)%nat by (destruct run; [done | simpl; lia]).
    rewrite scan_long_run by (lia || done). constructor; auto.
Qed.
End ReplaceRunsByOther.

(** ** Clean content *)

Lemma has_adjacent_ext p q s :
  (∀ c, p c = q c) → has_adjacent p s = has_adjacent q s.
Proof.
  intros H. induction s as [|c s IH]; [done|]. cbn [has_adjacent]. rewrite IH, H.
  destruct s; simpl; by rewrite ?H.
Qed.

Lemma has_adjacent_app p s1 s2 :
  has_adjacent p (s1 ++ s2) = false →
  has_adjacent p s1 = false ∧ has_adjacent p s2 = false.
Proof.
  induction s1 as [|c s1 IH]; [done|]. simpl app. cbn [has_adjacent].
  intros [H1 H2]%orb_false_elim. destruct (IH H2) as [-> ->].
  split; [|done]. rewrite orb_false_r.
  destruct (p c); [|done]. simpl in *. destruct s1; [done | exact H1].
Qed.

Lemma trimStart_suffix s : ∃ t, s = t ++ trimStart s.
Proof.
  induction s as [|c s [t IH]]; [by exists []|]. simpl.
  destruct (is_space c); [|by exists []]. exists (c :: t). simpl. by f_equal.
Qed.

Lemma trimEnd_prefix s : ∃ t, s = trimEnd s ++ t.
Proof.
  induction s as [|c s [t IH]] using rev_ind; [by exists []|].
  rewrite trimEnd_snoc. destruct (is_space c); [|exists []; by rewrite app_nil_r].
  exists (t ++ [c]). rewrite app_assoc. by f_equal.
Qed.

Lemma trim_no_adjacent p s : has_adjacent p s = false → has_adjacent p (trim s) = false.
Proof.
  intros H. unfold trim.
  destruct (trimStart_suffix s) as [t1 H1]. rewrite H1 in H.
  apply has_adjacent_app in H as [_ H].
  destruct (trimEnd_prefix (trimStart s)) as [t2 H2]. rewrite H2 in H.
  by apply has_adjacent_app in H as [H _].
Qed.

Lemma no_adjacent_includes p a b t : ∀ s,
  has_adjacent p s = false → p a = true → p b = true →
  includes s (a :: b :: t) = false.
Proof.
  intros s Hs Ha Hb. induction s as [|c s IH]; [done|].
  cbn [has_adjacent] in Hs. apply orb_false_elim in Hs as [H1 H2].
  cbn [includes]. rewrite (IH H2), orb_false_r.
  destruct s as [|d s]; simpl; [by rewrite andb_false_r|].
  destruct (Z.eqb_spec c a) as [->|]; [|done].
  destruct (Z.eqb_spec d b) as [->|]; [|done].
  simpl in H1. by rewrite Ha, Hb in H1.
Qed.

Lemma replace_whitespace_no_adjacent s :
  has_adjacent is_space (replace_all whitespace_regex (js " ") s) = false.
Proof.
  rewrite (has_adjacent_ext _ (atom_matches false (ACls false [CSpace]))).
  - apply (collapse_no_adjacent false (ACls false [CSpace]) 32 s O).
  - intros c. simpl. by rewrite orb_false_r.
Qed.

(** C10: the string that [removeDownloadLinks] returns holds no two
    white-space characters in a row, of any kind, for every text and every
    list of links: no two newlines in a row are left, and the two newlines
    between two paragraphs come out as one space. *)
Theorem removeDownloadLinks_no_adjacent_whitespace :
  (∀ content links,
     has_adjacent is_space (removeDownloadLinks content links) = false ∧
     includes (removeDownloadLinks content links) [10; 10] = false) ∧
  removeDownloadLinks [97; 10; 10; 98] [] = [97; 32; 98].
Proof.
  split; [|vm_compute; reflexivity].
  intros content links.
  assert (has_adjacent is_space (removeDownloadLinks content links) = false) as H.
  { unfold removeDownloadLinks. apply trim_no_adjacent, replace_whitespace_no_adjacent. }
  split; [done|]. by apply (no_adjacent_includes is_space).
Qed.

Lemma startsWith_app s p : startsWith s p = true → s = p ++ drop (length p) s.
Proof.
  revert s; induction p as [|a p IH]; intros s; [done|].
  destruct s as [|c s]; simpl; [done|].
  intros [->%Z.eqb_eq H]%andb_prop. f_equal. by apply IH.
Qed.

Lemma startsWith_self_app s t : startsWith (s ++ t) s = true.
Proof. induction s as [|c s IH]; [done|]. simpl. by rewrite Z.eqb_refl, IH. Qed.

(** [replace] with a string pattern takes out the first occurrence, and
    nothing else. *)
Lemma replace_first_spec p : ∀ s,
  (includes s p = false → replace_first s p [] = s) ∧
  (includes s p = true →
   ∃ pre post, s = pre ++ p ++ post ∧ replace_first s p [] = pre ++ post ∧
               ∀ k, (k < length pre)%nat → startsWith (drop k s) p = false).
Proof.
  induction s as [|c s [IH1 IH2]].
  - destruct p as [|a p]; simpl; (split; [done|]); [|done].
    intros _. exists [], []. split; [done|]. split; [done|]. simpl. intros; lia.
  - cbn [includes replace_first]. destruct (startsWith (c :: s) p) eqn:Hs; simpl.
    + split; [done|]. intros _. exists [], (drop (length p) (c :: s)).
      split; [by apply startsWith_app|]. split; [done|]. simpl. intros; lia.
    + split; [intros H; by rewrite IH1|].
      intros (pre & post & -> & Hr & Hk)%IH2. exists (c :: pre), post.
      split; [done|]. split; [simpl; by rewrite Hr|].
      intros [|k] Hlt; [done|]. simpl in *. apply Hk. lia.
Qed.

Lemma trimStart_spaces s : ∃ t, s = t ++ trimStart s ∧ forallb is_space t = true.
Proof.
  induction s as [|c s (t & IH & Ht)]; [by exists []|]. simpl.
  destruct (is_space c) eqn:Hc; [|by exists []].
  exists (c :: t). simpl. rewrite Hc, Ht. split; [by f_equal | done].
Qed.

Lemma trimEnd_spaces s : ∃ t, s = trimEnd s ++ t ∧ forallb is_space t = true.
Proof.
  induction s as [|c s (t & IH & Ht)] using rev_ind; [by exists []|].
  rewrite trimEnd_snoc. destruct (is_space c) eqn:Hc; [|exists []; by rewrite app_nil_r].
  exists (t ++ [c]). rewrite app_assoc, forallb_app, Ht. simpl. rewrite Hc.
  split; [by f_equal | done].
Qed.

(** [trim] takes white space off the two ends and nothing else. *)
Lemma trim_spaces s :
  ∃ pre post, s = pre ++ trim s ++ post ∧
              forallb is_space pre = true ∧ forallb is_space post = true.
Proof.
  destruct (trimStart_spaces s) as (pre & H1 & Hpre).
  destruct (trimEnd_spaces (trimStart s)) as (post & H2 & Hpost).
  exists pre, post. unfold trim. by rewrite <- H2.
Qed.

(** C4, the claim as stated fails, in the utilities and in the dashboard:
    the url of a returned link is left in the clean text where the text
    holds it outside the match of the link; and of a run of four newlines
    the utilities make one space and the dashboard leaves the four, neither
    makes two newlines. *)
Lemma removeDownloadLinks_leaves_url :
  parseDownloadLinks (js "see http://x [A](http://x)")
  = Done [ {| text := js "A"; url := js "http://x"; type := markdown;
              fullMatch := js "[A](http://x)"; priority := 1 |} ] ∧
  removeDownloadLinks (js "see http://x [A](http://x)")
    [ {| text := js "A"; url := js "http://x"; type := markdown;
         fullMatch := js "[A](http://x)"; priority := 1 |} ]
  = js "see http://x" ∧
  includes (js "see http://x") (js "http://x") = true ∧
  parseDownloadLinks [97; 10; 10; 10; 10; 98] = Done [] ∧
  removeDownloadLinks [97; 10; 10; 10; 10; 98] [] = [97; 32; 98] ∧
  SmartDashboard.renderMessageWithDownloadLinks (js "see http://x [A](http://x)")
  = Done (js "see http://x",
          [ {| SmartDashboard.text := js "A"; SmartDashboard.url := js "http://x";
               SmartDashboard.fullMatch := js "[A](http://x)";
               SmartDashboard.type := markdown |} ]) ∧
  SmartDashboard.renderMessageWithDownloadLinks [97; 10; 10; 10; 10; 98]
  = Done ([97; 10; 10; 10; 10; 98], []).
Proof. repeat split; vm_compute; reflexivity. Qed.

(** C4, as amended.  In the utilities, [removeDownloadLinks] goes through
    the links in order and takes the [fullMatch] of each, when it is not
    empty, out of the content at its first occurrence there, leaving the
    content as it is when it does not occur; the string returned holds no
    three newlines in a row.  In the dashboard,
    [renderMessageWithDownloadLinks] goes through the links that its
    [parseDownloadLinks] returns in the same way, taking each [fullMatch]
    out at its first occurrence, and then only takes the white space off
    the two ends: the newlines inside stay as they are. *)
Theorem removeDownloadLinks_first_occurrence :
  (∀ content link links,
     strip_links content (link :: links)
     = strip_links (match fullMatch link with
                    | [] => content
                    | _ :: _ => replace_first content (fullMatch link) []
                    end) links) ∧
  (∀ content p, includes content p = false → replace_first content p [] = content) ∧
  (∀ content p,
     includes content p = true →
     ∃ pre post, content = pre ++ p ++ post ∧ replace_first content p [] = pre ++ post ∧
                 ∀ k, (k < length pre)%nat → startsWith (drop k content) p = false) ∧
  (∀ content links,
     removeDownloadLinks content links
     = trim (replace_all whitespace_regex (js " ")
               (replace_all newlines_regex [10; 10] (strip_links content links))) ∧
     includes (removeDownloadLinks content links) [10; 10; 10] = false) ∧
  (∀ content,
     ∃ links, SmartDashboard.parseDownloadLinks content = Done links ∧
              SmartDashboard.renderMessageWithDownloadLinks content
              = Done (SmartDashboard.cleanContent content links, links)) ∧
  (∀ content link links,
     SmartDashboard.cleanContent content (link :: links)
     = SmartDashboard.cleanContent
         (replace_first content (SmartDashboard.fullMatch link) []) links) ∧
  (∀ content,
     SmartDashboard.cleanContent content [] = trim content ∧
     ∃ pre post, content = pre ++ trim content ++ post ∧
                 forallb is_space pre = true ∧ forallb is_space post = true).
Proof.
  split; [|split; [|split; [|split; [|split; [|split]]]]].
  - intros content link links. unfold strip_links. simpl.
    by destruct (fullMatch link).
  - intros content p. apply replace_first_spec.
  - intros content p. apply replace_first_spec.
  - intros content links. split; [done|].
    apply (no_adjacent_includes is_space); [|done..].
    apply trim_no_adjacent, replace_whitespace_no_adjacent.
  - intros content.
    destruct (SmartDashboard_forEach_done content (S (length content)) ltac:(lia)
                SmartDashboard.patterns [] ltac:(by vm_compute)) as [links H].
    exists links.
    unfold SmartDashboard.renderMessageWithDownloadLinks, SmartDashboard.parseDownloadLinks,
      SmartDashboard.parseDownloadLinks_fuel.
    by rewrite H.
  - done.
  - intros content. split; [done|]. apply trim_spaces.
Qed.

Lemma removeDownloadLinks_first_occurrence_witness :
  includes (js "a [x](http://x) b [x](http://x)") (js "[x](http://x)") = true ∧
  ∃ pre post,
    js "a [x](http://x) b [x](http://x)" = pre ++ js "[x](http://x)" ++ post ∧
    replace_first (js "a [x](http://x) b [x](http://x)") (js "[x](http://x)") [] = pre ++ post ∧
    ∀ k, (k < length pre)%nat →
         startsWith (drop k (js "a [x](http://x) b [x](http://x)")) (js "[x](http://x)") = false.
Proof.
  assert (includes (js "a [x](http://x) b [x](http://x)") (js "[x](http://x)") = true) as H
    by (vm_compute; reflexivity).
  split; [exact H|].
  exact (proj1 (proj2 (proj2 removeDownloadLinks_first_occurrence)) _ _ H).
Defined.

(** [s.replace(/a/g, rep)] for a pattern of one unit: each unit of the class
    is replaced. *)
Lemma replace_scan_atom ic a rep : ∀ rest i,
  replace_scan ic (Atom a) rep i rest O
  = rest ≫= λ c, if atom_matches ic a c then rep else [c].
Proof.
  induction rest as [|c rest IH]; intros i; [done|]. cbn [replace_scan rmatch].
  rewrite bind_cons. destruct (atom_matches ic a c) eqn:Hc.
  - destruct (Nat.eqb_spec (S i) i); [lia|].
    replace (S i - i - 1)%nat with O by lia. by rewrite IH.
  - by rewrite IH.
Qed.

Lemma replace_all_quotes s :
  replace_all quotes_regex [] s = List.filter (λ c, negb ((c =? 39) || (c =? 34))) s.
Proof.
  unfold replace_all. simpl. rewrite replace_scan_atom.
  induction s as [|c s IH]; [done|]. rewrite bind_cons, IH.
  assert (atom_matches false (ACls false [CChar 39; CChar 34]) c = (c =? 39) || (c =? 34))
    as ->.
  { cbn [atom_matches existsb item_matches xorb]. unfold char_eqb.
    by rewrite !(Z.eqb_sym _ c), orb_false_r. }
  simpl. by destruct ((c =? 39) || (c =? 34)).
Qed.

(** ** The name of the download *)

(** *** The token of the header

    What the matcher does with the expression for the header: where the
    literal [filename] does not match it fails, a greedy star takes its
    whole run when the rest then matches, and a lazy star stops at the first
    unit where the rest matches. *)

Section MatcherRuns.
Context {R : Type}.






End MatcherRuns.




Section FilenameMatch.
Context {R : Type} (K : nat → jsstring → captures → option R).
Hypothesis K_some : ∀ j r caps, is_Some (K j r caps).

Abbreviation quoted := (Seqs [Group 2 (Atom (ACls false [CChar 39; CChar 34]));
                              Star false ADot; Backref 2]).
Abbreviation unquoted := (Star true (ACls true [CChar 59; CChar 10])).








End FilenameMatch.










(** ** The clean name of [generateFilename] *)

Lemma replace_edge_inner : ∀ rest i,
  (1 ≤ i)%nat → replace_scan false edge_regex [] i rest O = strip_last rest.
Proof.
  induction rest as [|c rest IH]; intros i Hi.
  - simpl. destruct (Nat.eqb_spec i 0); [lia | done].
  - cbn [replace_scan rmatch atom_matches char_eqb].
    destruct (Nat.eqb_spec i 0); [lia|].
    destruct (95 =? c) eqn:Hc.
    + destruct rest as [|d rest].
      * destruct (Nat.eqb_spec (S i) i); [lia|].
        replace (S i - i - 1)%nat with O by lia. rewrite IH by lia.
        cbn [strip_last app]. by rewrite Hc.
      * rewrite IH by lia. done.
    + rewrite IH by lia. cbn [strip_last]. rewrite Hc. by destruct rest.
Qed.

Lemma replace_edge s : replace_all TemplateDownloadUtils.edge_underscore_regex [] s = strip_edges s.
Proof.
  unfold replace_all. simpl source. simpl ignoreCase. change (lit "_") with (Atom (AChr 95)).
  destruct s as [|c s]; [done|].
  cbn [replace_scan rmatch atom_matches char_eqb Nat.eqb]. unfold strip_edges.
  destruct (95 =? c) eqn:Hc.
  - cbn [Nat.sub app]. by rewrite replace_edge_inner by lia.
  - rewrite replace_edge_inner by lia. cbn [strip_last]. rewrite Hc. by destruct s.
Qed.

Lemma strip_last_prefix s : ∃ t, s = strip_last s ++ t.
Proof.
  induction s as [|c s [t IH]]; [by exists []|]. cbn [strip_last].
  destruct s as [|d s].
  - destruct (95 =? c); [by exists [c] | by exists []].
  - exists t. cbn [app]. f_equal. exact IH.
Qed.

Lemma strip_last_cons_cons c d s : strip_last (c :: d :: s) = c :: strip_last (d :: s).
Proof. done. Qed.

Lemma strip_last_last s :
  has_adjacent (Z.eqb 95) s = false → last (strip_last s) ≠ Some 95.
Proof.
  induction s as [|c s IH]; [done|]. cbn [has_adjacent]. intros [H1 H2]%orb_false_elim.
  destruct s as [|d s].
  - cbn [strip_last]. destruct (Z.eqb_spec 95 c); [done|]. cbn [last]. congruence.
  - rewrite strip_last_cons_cons, last_cons. specialize (IH H2).
    destruct (last (strip_last (d :: s))) as [x|] eqn:Hl; [done|].
    intros [= ->]. cbn [head_is] in H1. rewrite Z.eqb_refl in H1.
    destruct s as [|e s].
    + cbn [strip_last] in Hl. destruct (95 =? d); [done|]. cbn [last] in Hl. done.
    + rewrite strip_last_cons_cons, last_cons in Hl. by destruct (last _).
Qed.

Lemma strip_edges_spec s :
  has_adjacent (Z.eqb 95) s = false →
  has_adjacent (Z.eqb 95) (strip_edges s) = false ∧
  head (strip_edges s) ≠ Some 95 ∧ last (strip_edges s) ≠ Some 95 ∧
  ∀ P : Z → Prop, Forall P s → Forall P (strip_edges s).
Proof.
  intros Hs. assert (∃ t1 t2, s = t1 ++ strip_edges s ++ t2) as (t1 & t2 & Heq).
  { destruct s as [|c s]; [by exists [], []|]. unfold strip_edges.
    destruct (95 =? c).
    - destruct (strip_last_prefix s) as [t Ht]. exists [c], t. cbn [app]. by f_equal.
    - destruct (strip_last_prefix (c :: s)) as [t Ht]. by exists [], t. }
  split; [|split; [|split]].
  - rewrite Heq in Hs. apply has_adjacent_app in Hs as [_ Hs].
    by apply has_adjacent_app in Hs as [Hs _].
  - destruct s as [|c s]; [done|]. unfold strip_edges.
    cbn [has_adjacent] in Hs. apply orb_false_elim in Hs as [H1 H2].
    destruct (Z.eqb_spec 95 c) as [<-|Hne].
    + cbn [andb] in H1.
      destruct s as [|d s]; [done|]. cbn [head_is] in H1.
      destruct s as [|e s].
      * cbn [strip_last]. rewrite H1. cbn [head]. intros [= ->]. by rewrite Z.eqb_refl in H1.
      * rewrite strip_last_cons_cons. cbn [head]. intros [= ->]. by rewrite Z.eqb_refl in H1.
    + destruct s as [|d s].
      * cbn [strip_last]. destruct (Z.eqb_spec 95 c); [done|]. cbn [head]. congruence.
      * rewrite strip_last_cons_cons. cbn [head]. congruence.
  - destruct s as [|c s]; [done|]. unfold strip_edges.
    cbn [has_adjacent] in Hs. pose proof Hs as [H1 H2]%orb_false_elim.
    destruct (95 =? c) eqn:Hc; [by apply strip_last_last|].
    apply strip_last_last. cbn [has_adjacent]. by rewrite Hc, H2.
  - intros P HP. rewrite Heq in HP. apply Forall_app in HP as [_ HP].
    by apply Forall_app in HP as [HP _].
Qed.

Lemma not_kept_spec c :
  atom_matches false TemplateDownloadUtils.not_kept_class c
  = negb (kept_char c || is_space c).
Proof.
  unfold not_kept_class, kept_char. cbn [atom_matches].
  rewrite xorb_true_l, app_assoc, existsb_app. cbn [existsb item_matches].
  by rewrite orb_false_r.
Qed.

Lemma space_class_spec c : atom_matches false (ACls false [CSpace]) c = is_space c.
Proof. cbn [atom_matches existsb item_matches]. by rewrite xorb_false_l, orb_false_r. Qed.

Lemma replace_not_kept s :
  Forall (λ c, kept_char c || is_space c = true)
    (replace_all TemplateDownloadUtils.not_kept_regex [] s).
Proof.
  unfold replace_all. cbn [source ignoreCase not_kept_regex].
  rewrite replace_scan_atom. induction s as [|c s IH]; [constructor|].
  rewrite bind_cons, not_kept_spec.
  destruct (kept_char c || is_space c) eqn:E; [|done].
  by constructor.
Qed.

Lemma cleanName_spec toLowerCase templateName :
  Forall (λ c, name_char c = true) (cleanName toLowerCase templateName) ∧
  has_adjacent (Z.eqb 95) (cleanName toLowerCase templateName) = false ∧
  head (cleanName toLowerCase templateName) ≠ Some 95 ∧
  last (cleanName toLowerCase templateName) ≠ Some 95.
Proof.
  unfold cleanName.
  pose proof (replace_not_kept (toLowerCase templateName)) as H2.
  set (s2 := replace_all not_kept_regex [] (toLowerCase templateName)) in *.
  assert (Forall (λ c, name_char c = true) (replace_all spaces_regex (js "_") s2) ∧
          has_adjacent (Z.eqb 95) (replace_all spaces_regex (js "_") s2) = false)
    as [H3 _].
  { unfold replace_all. cbn [source ignoreCase spaces_regex]. change (js "_") with [95].
    split.
    - apply (replace_runs_Forall false (ACls false [CSpace]) 95 (λ c, name_char c = true));
        [done|].
      eapply Forall_impl; [exact H2|]. intros c Hc. cbv beta in Hc.
      rewrite space_class_spec. intros Hs. rewrite Hs, orb_false_r in Hc.
      unfold name_char. by rewrite Hc.
    - apply (replace_runs_spec false (ACls false [CSpace]) 95 eq_refl s2 O).
      intros Hin. rewrite Forall_forall in H2. by specialize (H2 _ Hin). }
  set (s3 := replace_all spaces_regex (js "_") s2) in *.
  assert (Forall (λ c, name_char c = true) (replace_all underscores_regex (js "_") s3) ∧
          has_adjacent (Z.eqb 95) (replace_all underscores_regex (js "_") s3) = false)
    as [H4 H4'].
  { unfold replace_all. cbn [source ignoreCase underscores_regex]. change (js "_") with [95].
    split.
    - by apply (collapse_Forall false (AChr 95) 95 (λ c, name_char c = true)).
    - apply (collapse_no_adjacent false (AChr 95) 95 s3 O). }
  set (s4 := replace_all underscores_regex (js "_") s3) in *.
  rewrite replace_edge. destruct (strip_edges_spec s4 H4') as (H5 & H6 & H7 & H8).
  auto.
Qed.

(** C6: whatever the case mapping, [generateFilename] returns the clean name,
    or [template] when the clean name is empty, followed by a dot and the
    extension ([docx] when none is given); the result is not empty; the clean
    name holds only lower-case ASCII letters, digits, the letters
    ə ı ö ü ç ş ğ and underscores, no two underscores in a row, and no
    underscore at its start or end.  With the case mapping written out, the
    name of [!!!] is [template.docx] and that of [Mezuniyyet Ərizesi] is
    [mezuniyyet_ərizesi.docx]; a run of white space gives one underscore. *)
Theorem generateFilename_clean :
  (∀ toLowerCase templateName extension,
     generateFilename toLowerCase templateName extension
     = match cleanName toLowerCase templateName with
       | [] => js "template"
       | name => name
       end ++ js "." ++ default (js "docx") extension ∧
     generateFilename toLowerCase templateName extension ≠ [] ∧
     Forall (λ c, name_char c = true) (cleanName toLowerCase templateName) ∧
     has_adjacent (Z.eqb 95) (cleanName toLowerCase templateName) = false ∧
     head (cleanName toLowerCase templateName) ≠ Some 95 ∧
     last (cleanName toLowerCase templateName) ≠ Some 95) ∧
  generateFilename toLowerCase_latin (js "!!!") (Some (js "docx")) = js "template.docx" ∧
  generateFilename toLowerCase_latin (js "Mezuniyyet Ərizesi") (Some (js "docx"))
  = js "mezuniyyet_ərizesi.docx" ∧
  generateFilename toLowerCase_latin (js "  İllik   Hesabat_2024 ") None
  = js "illik_hesabat2024.docx".
Proof.
  split; [|repeat split; vm_compute; reflexivity].
  intros toLowerCase templateName extension.
  assert (generateFilename toLowerCase templateName extension
          = match cleanName toLowerCase templateName with
            | [] => js "template"
            | name => name
            end ++ js "." ++ default (js "docx") extension) as Heq.
  { unfold generateFilename. by destruct (cleanName toLowerCase templateName). }
  split; [exact Heq|]. split; [|apply cleanName_spec].
  rewrite Heq. change (js ".") with [46].
  destruct (cleanName toLowerCase templateName); [|done].
  by change (js "template") with [116; 101; 109; 112; 108; 97; 116; 101].
Qed.

(** * Further properties *)

(** ** Trimming and cleaning *)

Lemma trimStart_head s : head_is is_space (trimStart s) = false.
Proof.
  induction s as [|c s IH]; [done|]. simpl. destruct (is_space c) eqn:Hc; [done|].
  simpl. exact Hc.
Qed.

Lemma trimEnd_last s : last_is is_space (trimEnd s) = false.
Proof.
  induction s as [|c s IH] using rev_ind; [done|].
  rewrite trimEnd_snoc. destruct (is_space c) eqn:Hc; [done|].
  unfold last_is. by rewrite last_snoc.
Qed.

Lemma trimEnd_head s : head_is is_space s = false → head_is is_space (trimEnd s) = false.
Proof.
  intros H. destruct (trimEnd_prefix s) as [t Ht].
  destruct (trimEnd s) as [|c u]; [done|]. rewrite Ht in H. exact H.
Qed.

Lemma trimStart_id s : head_is is_space s = false → trimStart s = s.
Proof. destruct s as [|c s]; [done|]. simpl. by intros ->. Qed.

Lemma trimEnd_id s : last_is is_space s = false → trimEnd s = s.
Proof.
  destruct s as [|c s _] using rev_ind; [done|].
  unfold last_is. rewrite last_snoc, trimEnd_snoc. by intros ->.
Qed.

Lemma trim_edges s :
  head_is is_space (trim s) = false ∧ last_is is_space (trim s) = false.
Proof.
  unfold trim. split; [|apply trimEnd_last]. apply trimEnd_head, trimStart_head.
Qed.

Lemma trim_id s :
  head_is is_space s = false → last_is is_space s = false → trim s = s.
Proof. intros H1 H2. unfold trim. rewrite (trimStart_id _ H1). by apply trimEnd_id. Qed.

Lemma trim_length s : (length (trim s) ≤ length s)%nat.
Proof.
  unfold trim. destruct (trimStart_suffix s) as [t1 H1].
  destruct (trimEnd_prefix (trimStart s)) as [t2 H2].
  rewrite H1 at 2. rewrite H2 at 2. rewrite !length_app. lia.
Qed.

Lemma has_adjacent_weaken (p q : Z → bool) s :
  (∀ c, q c = true → p c = true) → has_adjacent p s = false → has_adjacent q s = false.
Proof.
  intros Hpq. induction s as [|c s IH]; [done|]. cbn [has_adjacent].
  intros [H1 H2]%orb_false_elim. rewrite (IH H2), orb_false_r.
  destruct (q c) eqn:Hc; [|done]. rewrite (Hpq _ Hc) in H1. cbn [andb] in *.
  destruct s as [|d s]; [done|]. cbn [head_is] in *.
  destruct (q d) eqn:Hd; [|done]. by rewrite (Hpq _ Hd) in H1.
Qed.

Lemma has_adjacent_run p run tail :
  forallb p run = true → has_adjacent p (run ++ tail) = false → (length run ≤ 1)%nat.
Proof.
  destruct run as [|c [|d run]]; simpl; try lia.
  intros [Hc [Hd _]%andb_prop]%andb_prop. by rewrite Hc, Hd.
Qed.

(** [s.replace(/a{n,}/g, rep)] with [n] at least 2 leaves a string without
    two units of the class in a row as it is. *)
Lemma replace_runs_id ic a n rep :
  (2 ≤ n)%nat → ∀ s i,
  has_adjacent (atom_matches ic a) s = false →
  replace_scan ic (AtLeast n a) rep i s O = s.
Proof.
  intros Hn s.
  induction s as [|c s Hc IH|run tail Hne Hrun Htail IH] using (run_ind (atom_matches ic a));
    intros i Hs.
  - by rewrite scan_nil by lia.
  - rewrite scan_other by (lia || done). f_equal. apply IH.
    cbn [has_adjacent] in Hs. by apply orb_false_elim in Hs as [_ Hs].
  - pose proof (has_adjacent_run _ _ _ Hrun Hs).
    rewrite scan_short_run by (lia || done). f_equal. apply IH.
    by apply has_adjacent_app in Hs as [_ Hs].
Qed.

(** [s.replace(/a{n,}/g, rep)] does not make the string longer when [rep]
    has at most [n] units. *)
Lemma replace_runs_length ic a n rep :
  (1 ≤ n)%nat → (length rep ≤ n)%nat → ∀ s i,
  (length (replace_scan ic (AtLeast n a) rep i s O) ≤ length s)%nat.
Proof.
  intros Hn Hrep s.
  induction s as [|c s Hc IH|run tail Hne Hrun Htail IH] using (run_ind (atom_matches ic a));
    intros i.
  - by rewrite scan_nil by lia.
  - rewrite scan_other by (lia || done). simpl. specialize (IH (S i)). lia.
  - specialize (IH (i + length run)%nat).
    destruct (Nat.le_gt_cases n (length run)) as [Hlen|Hlen].
    + rewrite scan_long_run by (lia || done). rewrite !length_app. lia.
    + rewrite scan_short_run by (lia || done). rewrite !length_app. lia.
Qed.

Lemma replace_first_length p : ∀ s, (length (replace_first s p []) ≤ length s)%nat.
Proof.
  induction s as [|c s IH]; cbn [replace_first].
  - destruct (startsWith [] p); cbn [app]; [rewrite drop_nil|]; done.
  - destruct (startsWith (c :: s) p); cbn [app].
    + rewrite length_drop. lia.
    + cbn [length]. lia.
Qed.

Lemma strip_links_length links : ∀ content,
  (length (strip_links content links) ≤ length content)%nat.
Proof.
  unfold strip_links. induction links as [|l links IH]; intros content; simpl; [done|].
  etrans; [apply IH|]. destruct (fullMatch l); simpl; [done|]. apply replace_first_length.
Qed.

(** X1: the clean content that [removeDownloadLinks] returns has no white
    space at its start or end, is not longer than the content, and is left
    as it is when it is cleaned again. *)
Theorem removeDownloadLinks_clean (content : jsstring) (links : list DownloadLink) :
  head_is is_space (removeDownloadLinks content links) = false ∧
  last_is is_space (removeDownloadLinks content links) = false ∧
  (length (removeDownloadLinks content links) ≤ length content)%nat ∧
  removeDownloadLinks (removeDownloadLinks content links) [] = removeDownloadLinks content links.
Proof.
  pose proof (trim_edges (replace_all whitespace_regex (js " ")
    (replace_all newlines_regex [10; 10] (strip_links content links)))) as [Hh Hl].
  fold (removeDownloadLinks content links) in Hh, Hl.
  split; [done|]. split; [done|]. split.
  - unfold removeDownloadLinks. etrans; [apply trim_length|].
    unfold replace_all. cbn [source ignoreCase whitespace_regex newlines_regex].
    etrans; [apply replace_runs_length; (done || vm_compute; lia)|].
    etrans; [apply replace_runs_length; (done || simpl; lia)|].
    apply strip_links_length.
  - assert (has_adjacent is_space (removeDownloadLinks content links) = false) as Hadj.
    { unfold removeDownloadLinks. apply trim_no_adjacent, replace_whitespace_no_adjacent. }
    set (r := removeDownloadLinks content links) in *.
    unfold removeDownloadLinks at 1. unfold strip_links, replace_all. simpl fold_left.
    cbn [source ignoreCase whitespace_regex newlines_regex].
    rewrite (replace_runs_id false (AChr 10) 3) by
      (lia || (apply (has_adjacent_weaken is_space); [|done];
               intros c Hc; cbn [atom_matches char_eqb] in Hc;
               apply Z.eqb_eq in Hc as <-; done)).
    rewrite (replace_runs_id false (ACls false [CSpace]) 2) by
      (lia || (rewrite (has_adjacent_ext _ is_space); [done|];
               intros c; apply space_class_spec)).
    by apply trim_id.
Qed.

(** ** Where the links are in the text *)

(** A capture set by a match is the text that the body of its group
    matched, inside the text of the match. *)
Lemma matches_capture_within ic n r :
  ∀ i rest caps j rest' caps' u,
    matches ic r i rest caps j rest' caps' →
    cap_get caps' n = Some u →
    cap_get caps n = Some u ∨
    ∃ body d k,
      body ∈ group_bodies n r ∧ (minlen body ≤ k)%nat ∧ (i + d + k ≤ j)%nat ∧
      u = take k (drop d rest).
Proof.
  induction r as [|a|r1 IH1 r2 IH2|r1 IH1 r2 IH2|m r1 IH1|m|g a| |];
    intros i rest caps j rest' caps' u; simpl.
  - intros (_ & _ & ->) H. by left.
  - intros (c & _ & _ & _ & ->) H. by left.
  - intros (k & restk & capsk & H1 & H2) Hu.
    pose proof (matches_consumes _ _ _ _ _ _ _ _ H1) as (n1 & Hn1 & -> & ->).
    pose proof (matches_consumes _ _ _ _ _ _ _ _ H2) as (n2 & Hn2 & -> & _).
    destruct (IH2 _ _ _ _ _ _ _ H2 Hu) as [Hk|(b & d & kk & Hb & Hmin & Hle & ->)].
    + destruct (IH1 _ _ _ _ _ _ _ H1 Hk) as [?|(b & d & kk & Hb & Hmin & Hle & ->)]; [by left|].
      right. exists b, d, kk. rewrite elem_of_app. split; [auto|]. split; [done|].
      split; [lia | done].
    + right. exists b, (n1 + d)%nat, kk. rewrite elem_of_app, drop_drop.
      split; [auto|]. split; [done|]. split; [lia | done].
  - intros [Hm|Hm] Hu.
    + destruct (IH1 _ _ _ _ _ _ _ Hm Hu) as [?|(b & d & kk & Hb & Hmin & Hle & ->)]; [by left|].
      right. exists b, d, kk. rewrite elem_of_app. auto.
    + destruct (IH2 _ _ _ _ _ _ _ Hm Hu) as [?|(b & d & kk & Hb & Hmin & Hle & ->)]; [by left|].
      right. exists b, d, kk. rewrite elem_of_app. auto.
  - intros (caps1 & Hm & ->). simpl. destruct (Nat.eqb_spec m n) as [->|Hne].
    + intros [= <-]. right.
      pose proof (matches_consumes _ _ _ _ _ _ _ _ Hm) as (n1 & Hn1 & -> & _).
      exists r1, O, (i + n1 - i)%nat. rewrite drop_0.
      split; [by left|]. split; [lia|]. split; [lia | done].
    + intros Hu.
      destruct (IH1 _ _ _ _ _ _ _ Hm Hu) as [?|(b & d & kk & Hb & Hmin & Hle & ->)]; [by left|].
      right. by exists b, d, kk.
  - intros (-> & _) H. by left.
  - intros (k & _ & _ & _ & _ & ->) H. by left.
  - intros (_ & _ & _ & ->) H. by left.
  - intros (_ & _ & _ & ->) H. by left.
Qed.

Lemma includes_app a x b : includes (a ++ x ++ b) x = true.
Proof.
  induction a as [|c a IH]; simpl.
  - destruct x as [|d x]; [by destruct b|]. cbn [app includes].
    change (d :: x ++ b) with ((d :: x) ++ b). by rewrite startsWith_self_app.
  - rewrite IH. apply orb_true_r.
Qed.

Lemma includes_take_drop s d k :
  includes s (take k (drop d s)) = true.
Proof.
  rewrite <- (take_drop d s) at 1. rewrite <- (take_drop k (drop d s)) at 1.
  apply includes_app.
Qed.

Lemma includes_elim x : ∀ s, includes s x = true → ∃ a b, s = a ++ x ++ b.
Proof.
  induction s as [|c s IH]; cbn [includes].
  - rewrite orb_false_r. intros H%startsWith_app. exists [], (drop (length x) []). done.
  - intros [H%startsWith_app|(a & b & ->)%IH]%orb_prop.
    + by exists [], (drop (length x) (c :: s)).
    + by exists (c :: a), b.
Qed.

Lemma includes_trans s x y :
  includes s x = true → includes x y = true → includes s y = true.
Proof.
  intros (a & b & ->)%includes_elim (a' & b' & ->)%includes_elim.
  replace (a ++ (a' ++ y ++ b') ++ b) with ((a ++ a') ++ y ++ (b' ++ b))
    by (by rewrite <- !app_assoc).
  apply includes_app.
Qed.

Lemma trim_includes s : includes s (trim s) = true.
Proof.
  unfold trim. destruct (trimStart_suffix s) as [t1 H1].
  destruct (trimEnd_prefix (trimStart s)) as [t2 H2].
  rewrite H1 at 1. rewrite H2 at 1. apply includes_app.
Qed.

(** The text of a match is in the string, with the length of the match, and
    each of its captures is in the text of the match, with at least the
    least length of the body of its group. *)
Lemma is_match_located re s mt :
  is_match re s mt →
  includes s (m_0 mt) = true ∧ (minlen (source re) ≤ length (m_0 mt))%nat ∧
  ∀ n u, match_get mt (S n) = Some u →
    includes (m_0 mt) u = true ∧
    ∃ body, body ∈ group_bodies (S n) (source re) ∧ (minlen body ≤ length u)%nat.
Proof.
  intros (Hlen & rest' & Hm & H0). split; [|split].
  - rewrite H0. apply includes_take_drop.
  - rewrite H0, length_take, length_drop. lia.
  - intros n u Hu. simpl in Hu.
    destruct (matches_capture_within _ _ _ _ _ _ _ _ _ _ Hm Hu)
      as [?|(body & d & k & Hb & Hmin & Hle & ->)]; [done|].
    assert (take k (drop d (drop (m_index mt) s)) = take k (drop d (m_0 mt))) as ->.
    { rewrite H0. rewrite <- (take_drop (m_end mt - m_index mt) (drop (m_index mt) s)) at 1.
      rewrite drop_app_le by (rewrite length_take, length_drop; lia).
      rewrite take_app_le; [done|].
      rewrite length_drop, length_take, length_drop. lia. }
    split; [apply includes_take_drop|]. exists body. split; [done|].
    rewrite length_take, length_drop, H0, length_take, length_drop. lia.
Qed.

Lemma trim_http_includes u :
  startsWith u (js "http") = true → trim u ≠ [] ∧ includes u (trim u) = true.
Proof. intros H. split; [by apply trim_http | apply trim_includes]. Qed.

Lemma candidate_located p content mt u l :
  p ∈ DOWNLOAD_LINK_PATTERNS → is_match (regex_ p) content mt →
  candidate p mt = Some (u, l) →
  fullMatch l ≠ [] ∧ includes content (fullMatch l) = true ∧
  url l ≠ [] ∧ includes (fullMatch l) (url l) = true.
Proof.
  intros Hp Hm (Hu & Hne & Hs & ->)%candidate_inv. cbn [fullMatch url].
  destruct (is_match_located _ _ _ Hm) as (Hin & Hlen & Hcaps).
  assert (1 ≤ minlen (source (regex_ p)))%nat as Hmin.
  { unfold DOWNLOAD_LINK_PATTERNS in Hp.
    repeat (apply elem_of_cons in Hp as [-> | Hp]); [..|by apply elem_of_nil in Hp];
      vm_compute; lia. }
  assert (∃ n, urlIndex p = S n) as [n Hn].
  { unfold DOWNLOAD_LINK_PATTERNS in Hp.
    repeat (apply elem_of_cons in Hp as [-> | Hp]); [..|by apply elem_of_nil in Hp];
      by eexists. }
  rewrite Hn in Hu. destruct (Hcaps _ _ Hu) as [Hin' _].
  destruct (trim_http_includes _ Hs) as [Ht Hti].
  split; [intros E; rewrite E in Hlen; simpl in Hlen; lia|].
  split; [done|]. split; [done|]. by eapply includes_trans.
Qed.

(** X2: every link that [parseDownloadLinks] returns has a [fullMatch] that
    is not empty and occurs in the content, and a [url] that is not empty
    and occurs in its [fullMatch]. *)
Theorem parseDownloadLinks_located (content : jsstring) :
  ∃ links, parseDownloadLinks content = Done links ∧
    Forall (λ l, fullMatch l ≠ [] ∧ includes content (fullMatch l) = true ∧
                 url l ≠ [] ∧ includes (fullMatch l) (url l) = true) links.
Proof.
  unfold parseDownloadLinks. rewrite parseDownloadLinks_fuel_first_seen by lia.
  eexists. split; [done|]. apply Forall_fmap, Forall_forall.
  intros [u l] [Hin _]%first_seen_subset.
  apply candidates_inv in Hin as (p & mt & Hp & Hmt & Hc).
  pose proof sortedPatterns_ok as Hok. rewrite forallb_forall in Hok.
  pose proof Hp as Hp'. apply list_elem_of_In, Hok in Hp'.
  apply andb_prop in Hp' as [[Hg Hmin%Nat.leb_le]%andb_prop _].
  destruct (all_matches_spec (regex_ p) content (S (length content)) Hg Hmin) as [_ Hms]; [lia|].
  rewrite Forall_forall in Hms. rewrite sortedPatterns_eq in Hp.
  simpl. by apply (candidate_located p content mt u l Hp (Hms _ Hmt)).
Qed.

Lemma candidate_kind p mt u l :
  p ∈ DOWNLOAD_LINK_PATTERNS → candidate p mt = Some (u, l) →
  ((type l = markdown ∧ priority l = 1) ∨
   (type l = emoji_direct ∧ priority l = 2 ∧ text l = js "Yüklə") ∨
   (type l = bold_direct ∧ priority l = 3 ∧ text l = js "Yükləmə linki") ∨
   (type l = keyword_direct ∧ priority l = 4)) ∧
  head_is is_space (text l) = false ∧ last_is is_space (text l) = false ∧
  head_is is_space (url l) = false ∧ last_is is_space (url l) = false.
Proof.
  intros Hp (Hu & Hne & Hs & ->)%candidate_inv. cbn [type priority text url].
  split; [|split; [|split; [|apply trim_edges]]].
  - unfold DOWNLOAD_LINK_PATTERNS in Hp.
    repeat (apply elem_of_cons in Hp as [-> | Hp]); [..|by apply elem_of_nil in Hp].
    + left. done.
    + right; left. done.
    + right; right; left. done.
    + right; right; right. done.
  - unfold DOWNLOAD_LINK_PATTERNS in Hp.
    repeat (apply elem_of_cons in Hp as [-> | Hp]); [..|by apply elem_of_nil in Hp];
      unfold label; cbn [textIndex defaultText]; (apply trim_edges || (vm_compute; reflexivity)).
  - unfold DOWNLOAD_LINK_PATTERNS in Hp.
    repeat (apply elem_of_cons in Hp as [-> | Hp]); [..|by apply elem_of_nil in Hp];
      unfold label; cbn [textIndex defaultText]; (apply trim_edges || (vm_compute; reflexivity)).
Qed.

(** X3: the kind, the priority and the default label of every link that
    [parseDownloadLinks] returns go together (markdown and 1; emoji, 2 and
    the label Yüklə; bold, 3 and the label Yükləmə linki; keyword and 4),
    and neither its label nor its url starts or ends with white space. *)
Theorem parseDownloadLinks_kinds (content : jsstring) :
  ∃ links, parseDownloadLinks content = Done links ∧
    Forall (λ l,
      ((type l = markdown ∧ priority l = 1) ∨
       (type l = emoji_direct ∧ priority l = 2 ∧ text l = js "Yüklə") ∨
       (type l = bold_direct ∧ priority l = 3 ∧ text l = js "Yükləmə linki") ∨
       (type l = keyword_direct ∧ priority l = 4)) ∧
      head_is is_space (text l) = false ∧ last_is is_space (text l) = false ∧
      head_is is_space (url l) = false ∧ last_is is_space (url l) = false) links.
Proof.
  unfold parseDownloadLinks. rewrite parseDownloadLinks_fuel_first_seen by lia.
  eexists. split; [done|]. apply Forall_fmap, Forall_forall.
  intros [u l] [Hin _]%first_seen_subset.
  apply candidates_inv in Hin as (p & mt & Hp & Hmt & Hc).
  rewrite sortedPatterns_eq in Hp. simpl. by apply (candidate_kind p mt u l).
Qed.

(** ** Downloads from the dashboard *)

Section DashboardDownload.
Context (host : Host) (url : jsstring) (filename : option jsstring).

#[local] Arguments includes : simpl never.
#[local] Arguments js : simpl never.
#[local] Arguments app : simpl never.
#[local] Arguments header_filename : simpl never.
#[local] Arguments Number_toString : simpl never.

Lemma handle_fetch_failed e :
  fetch host url = inl e →
  SmartDashboard.handleDownloadFromLink host url filename
  = ([ConsoleLog (js "Downloading from URL: " ++ url); Fetch url;
      ConsoleError (js "Download error:") e;
      ToastError (js "Yükləmə xətası: " ++ message_of e)], Done tt).
Proof. intros H. unfold SmartDashboard.handleDownloadFromLink. rewrite H. reflexivity. Qed.

Lemma handle_not_ok response :
  fetch host url = inr response → ok response = false →
  SmartDashboard.handleDownloadFromLink host url filename
  = ([ConsoleLog (js "Downloading from URL: " ++ url); Fetch url;
      ConsoleError (js "Download error:") (http_error response);
      ToastError (js "Yükləmə xətası: " ++ message_of (http_error response))], Done tt).
Proof.
  intros H Hok. unfold SmartDashboard.handleDownloadFromLink. rewrite H. simpl.
  rewrite Hok. reflexivity.
Qed.

Lemma handle_body_failed response e :
  fetch host url = inr response → ok response = true → body response = inl e →
  SmartDashboard.handleDownloadFromLink host url filename
  = ([ConsoleLog (js "Downloading from URL: " ++ url); Fetch url;
      ConsoleError (js "Download error:") e;
      ToastError (js "Yükləmə xətası: " ++ message_of e)], Done tt).
Proof.
  intros H Hok Hb. unfold SmartDashboard.handleDownloadFromLink. rewrite H. simpl.
  rewrite Hok, Hb. reflexivity.
Qed.

Lemma handle_empty_body response blob :
  fetch host url = inr response → ok response = true → body response = inr blob →
  size blob = O →
  SmartDashboard.handleDownloadFromLink host url filename
  = ([ConsoleLog (js "Downloading from URL: " ++ url); Fetch url;
      ConsoleError (js "Download error:") (Error (js "Boş fayl alındı"));
      ToastError (js "Yükləmə xətası: " ++ js "Boş fayl alındı")], Done tt).
Proof.
  intros H Hok Hb Hs. unfold SmartDashboard.handleDownloadFromLink. rewrite H. simpl.
  rewrite Hok, Hb. simpl. rewrite Hs. reflexivity.
Qed.

Lemma handle_saved response blob :
  fetch host url = inr response → ok response = true → body response = inr blob →
  size blob ≠ O →
  ∃ name,
    SmartDashboard.handleDownloadFromLink host url filename
    = ([ConsoleLog (js "Downloading from URL: " ++ url); Fetch url;
        ConsoleLog (js "Downloaded blob: size=" ++ Number_toString (size blob)
                      ++ js ", type=" ++ blob_type blob);
        CreateObjectURL blob; Click name blob; SetTimeout 100;
        ToastSuccess (js "Fayl yükləndi")], Done tt).
Proof.
  intros H Hok Hb Hs. unfold SmartDashboard.handleDownloadFromLink. rewrite H. simpl.
  rewrite Hok, Hb. simpl. destruct (Nat.eqb_spec (size blob) O) as [E|_]; [done|].
  simpl. eexists. reflexivity.
Qed.
End DashboardDownload.

(** X4: [handleDownloadFromLink] never throws: whatever the host answers
    it returns after one request and one toast, which is the last thing it
    does.  The toast reports success exactly when a file was handed to the
    page, which takes a response in the success range whose body was read
    and is not empty; otherwise the toast holds the message of the failure
    and nothing is handed to the page. *)
Theorem handleDownloadFromLink_reports (host : Host) (url : jsstring)
    (filename : option jsstring) :
  ∃ tr last,
    SmartDashboard.handleDownloadFromLink host url filename = (tr ++ [last], Done tt) ∧
    List.filter is_fetch tr = [Fetch url] ∧
    List.filter is_toast tr = [] ∧
    ((last = ToastSuccess (js "Fayl yükləndi") ∧
      ∃ response blob name,
        fetch host url = inr response ∧ ok response = true ∧
        body response = inr blob ∧ size blob ≠ O ∧
        List.filter is_click tr = [Click name blob]) ∨
     (∃ e, last = ToastError (js "Yükləmə xətası: " ++ message_of e) ∧
           List.filter is_click tr = [])).
Proof.
  destruct (fetch host url) as [e|response] eqn:Hf.
  { rewrite (handle_fetch_failed host url filename e Hf).
    exists [ConsoleLog (js "Downloading from URL: " ++ url); Fetch url;
            ConsoleError (js "Download error:") e], (ToastError (js "Yükləmə xətası: " ++ message_of e)).
    repeat split. right. by exists e. }
  destruct (ok response) eqn:Hok.
  2: { rewrite (handle_not_ok host url filename response Hf Hok).
       exists [ConsoleLog (js "Downloading from URL: " ++ url); Fetch url;
               ConsoleError (js "Download error:") (http_error response)],
              (ToastError (js "Yükləmə xətası: " ++ message_of (http_error response))).
       repeat split. right. by exists (http_error response). }
  destruct (body response) as [e|blob] eqn:Hb.
  { rewrite (handle_body_failed host url filename response e Hf Hok Hb).
    exists [ConsoleLog (js "Downloading from URL: " ++ url); Fetch url;
            ConsoleError (js "Download error:") e], (ToastError (js "Yükləmə xətası: " ++ message_of e)).
    repeat split. right. by exists e. }
  destruct (Nat.eq_dec (size blob) O) as [Hs|Hs].
  { rewrite (handle_empty_body host url filename response blob Hf Hok Hb Hs).
    exists [ConsoleLog (js "Downloading from URL: " ++ url); Fetch url;
            ConsoleError (js "Download error:") (Error (js "Boş fayl alındı"))],
           (ToastError (js "Yükləmə xətası: " ++ js "Boş fayl alındı")).
    repeat split. right. by exists (Error (js "Boş fayl alındı")). }
  destruct (handle_saved host url filename response blob Hf Hok Hb Hs) as [name ->].
  exists [ConsoleLog (js "Downloading from URL: " ++ url); Fetch url;
          ConsoleLog (js "Downloaded blob: size=" ++ Number_toString (size blob)
                        ++ js ", type=" ++ blob_type blob);
          CreateObjectURL blob; Click name blob; SetTimeout 100],
         (ToastSuccess (js "Fayl yükləndi")).
  repeat split. left. split; [done|]. by exists response, blob, name.
Qed.

(** ** The names of the saved files *)

Lemma ensure_extension_dot name : includes (ensure_extension name) (js ".") = true.
Proof.
  unfold ensure_extension. destruct (includes name (js ".")) eqn:E; simpl; [done|].
  change (js ".docx") with (js "." ++ js "docx"). apply includes_app.
Qed.

Lemma path_name_nonempty urlPath : path_name urlPath ≠ [].
Proof. unfold path_name. by destruct (pop (split urlPath 47)). Qed.

Lemma header_name_nonempty response name : header_name response = Some name → name ≠ [].
Proof.
  unfold header_name. destruct (contentDisposition response) as [[|c cd]|]; try done.
  destruct (header_filename (c :: cd)) as [[|d n]|]; try done. by intros [= <-].
Qed.

Lemma saved_click url n b name blob :
  Click name blob ∈ (saved url n b).1 → name = n ∧ blob = b.
Proof.
  simpl. intros H.
  repeat (apply elem_of_cons in H as [H|H]; [try discriminate|]).
  - by injection H as -> ->.
  - by apply elem_of_nil in H.
Qed.

Lemma failed_click url e name blob : Click name blob ∉ (failed url e).1.
Proof.
  simpl. intros H.
  repeat (apply elem_of_cons in H as [H|H]; [discriminate|]). by apply elem_of_nil in H.
Qed.

(** X5: a file that [downloadFromUrl] hands to the page has a name with a
    dot in it: the name is a name that is not empty, with [.docx] added to
    it when it has no dot. *)
Theorem downloadFromUrl_saved_name (host : Host) (url : jsstring) (filename : option jsstring)
    (name : jsstring) (blob : Blob) :
  Click name blob ∈ (downloadFromUrl host url filename).1 →
  includes name (js ".") = true ∧
  ∃ base, base ≠ [] ∧
    name = if includes base (js ".") then base else base ++ js ".docx".
Proof.
  assert (∀ n b, n ≠ [] → Click name blob ∈ (saved url (ensure_extension n) b).1 →
            includes name (js ".") = true ∧
            ∃ base, base ≠ [] ∧
              name = if includes base (js ".") then base else base ++ js ".docx") as Hsaved.
  { intros n b Hn [-> _]%saved_click. split; [apply ensure_extension_dot|].
    exists n. split; [done|]. unfold ensure_extension. by destruct (includes n (js ".")). }
  destruct (fetch host url) as [e|response] eqn:Hf.
  { rewrite (download_fetch_failed host url filename e Hf). by intros H%failed_click. }
  destruct (ok response) eqn:Hok.
  2: { rewrite (download_not_ok host url filename response Hf Hok). by intros H%failed_click. }
  destruct (body response) as [e|b] eqn:Hb.
  { rewrite (download_body_failed host url filename response e Hf Hok Hb).
    by intros H%failed_click. }
  destruct (truthy filename) eqn:Ht.
  { destruct filename as [[|c n]|]; try done.
    rewrite (download_given_name host url _ response b (c :: n) Hf Hok Hb eq_refl); [|done].
    by apply Hsaved. }
  destruct (header_name response) as [n|] eqn:Hh.
  { rewrite (download_header_name host url filename response b n Hf Hok Hb Ht Hh).
    apply Hsaved. by eapply header_name_nonempty. }
  rewrite (download_no_name_cases host url filename response b Hf Hok Hb Ht Hh).
  destruct (pathname host url) as [e|urlPath]; [by intros H%failed_click|].
  apply Hsaved, path_name_nonempty.
Qed.

Lemma downloadFromUrl_saved_name_witness :
  includes (js "report.docx") (js ".") = true ∧
  ∃ base, base ≠ [] ∧
    js "report.docx" = if includes base (js ".") then base else base ++ js ".docx".
Proof.
  apply (downloadFromUrl_saved_name (host_header header_report) (js "https://x.test/download")
           (Some (js "report")) (js "report.docx") {| size := 3; blob_type := js "application/pdf" |}).
  vm_compute. do 2 right. left.
Defined.

Lemma String_match_is_match re s mt :
  global re = false → String_match s re = Some mt → is_match re s mt.
Proof.
  intros Hg. unfold String_match, exec. rewrite Hg. simpl. rewrite drop_0.
  destruct (search _ _ _ _) as [mt'|] eqn:Hs; [|discriminate].
  simpl. intros [= ->].
  apply search_sound in Hs as (d & rest' & Hd & Hi & Hm & H0).
  simpl in Hi. rewrite <- Hi in Hm, H0.
  pose proof (matches_consumes _ _ _ _ _ _ _ _ Hm) as (n & Hn & Hj & _).
  rewrite length_drop in Hn.
  split; [lia|]. exists rest'. auto.
Qed.

(** A match of the expression for the header starts with [filename], and
    its first group is set, at least nine units after the start. *)
Lemma filename_match_shape cd mt :
  is_match filename_regex cd mt →
  includes cd (js "filename") = true ∧
  ∃ u, match_get mt 1 = Some u ∧ (length u + 9 ≤ length cd)%nat.
Proof.
  intros ([Hl1 Hl2] & rest' & Hm & H0).
  let r := eval vm_compute in (source filename_regex) in
    change (source filename_regex) with r in *.
  cbn [ignoreCase filename_regex] in Hm.
  cbn [matches atom_matches] in Hm. unfold char_eqb in Hm. break_matches.
  repeat match goal with
         | H : (_ =? _) = true |- _ => apply Z.eqb_eq in H; subst
         end.
  split.
  - rewrite <- (take_drop (m_index mt) cd).
    match goal with H : drop _ cd = _ |- _ => rewrite H end.
    change (js "filename") with [102; 105; 108; 101; 110; 97; 109; 101].
    match goal with |- includes (?a ++ _ :: _ :: _ :: _ :: _ :: _ :: _ :: _ :: ?b) ?x = true =>
      apply (includes_app a x b) end.
  - unfold match_get.
    match goal with H : m_groups mt = _ |- _ => rewrite H end.
    cbn [cap_get Nat.eqb]. eexists. split; [reflexivity|].
    rewrite length_take. simpl in Hl1. lia.
Qed.

(** X6: a name that [header_filename] finds in a [Content-Disposition]
    header comes from a header that holds [filename]; it holds no single and
    no double quote, and it is at least nine units shorter than the
    header. *)
Theorem header_filename_name (cd name : jsstring) :
  header_filename cd = Some name →
  includes cd (js "filename") = true ∧
  Forall (λ c, c ≠ 39 ∧ c ≠ 34) name ∧
  (length name + 9 ≤ length cd)%nat.
Proof.
  unfold header_filename. destruct (String_match cd filename_regex) as [mt|] eqn:Hm; [|done].
  apply String_match_is_match in Hm; [|done].
  destruct (filename_match_shape cd mt Hm) as (Hin & u & Hu & Hlen). rewrite Hu.
  destruct u as [|c u]; [done|]. intros [= <-]. rewrite replace_all_quotes.
  split; [done|]. split.
  - apply Forall_forall. intros x [_ Hx]%list_elem_of_In%filter_In.
    apply negb_true_iff, orb_false_elim in Hx as [H1%Z.eqb_neq H2%Z.eqb_neq]. done.
  - pose proof (filter_length_le (λ c, negb ((c =? 39) || (c =? 34))) (c :: u)). lia.
Qed.

Lemma header_filename_name_witness :
  includes header_report (js "filename") = true ∧
  Forall (λ c, c ≠ 39 ∧ c ≠ 34) (js "report.pdf") ∧
  (length (js "report.pdf") + 9 ≤ length header_report)%nat.
Proof.
  apply (header_filename_name header_report (js "report.pdf")). vm_compute. reflexivity.
Defined.

(** ** The extension of a url *)

Lemma split_at_nonempty sep s : ∀ cur, split_at sep s cur ≠ [].
Proof. induction s as [|c s IH]; intros cur; simpl; [done|]. by destruct (c =? sep). Qed.

Lemma pop_cons x l : l ≠ [] → pop (x :: l) = pop l.
Proof. unfold pop. by destruct l. Qed.

Lemma split_at_no_sep sep s : ∀ cur,
  Forall (λ c, c ≠ sep) s → split_at sep s cur = [rev cur ++ s].
Proof.
  induction s as [|c s IH]; intros cur Hs; simpl.
  - by rewrite app_nil_r.
  - apply Forall_cons in Hs as [Hc Hs]. destruct (Z.eqb_spec c sep); [done|].
    rewrite IH by done. simpl. by rewrite <- app_assoc.
Qed.

(** The last of the pieces that [split] makes holds no separator, and it is
    what follows the last separator of the string. *)
Lemma pop_split_no_sep sep s : ∀ cur,
  Forall (λ c, c ≠ sep) cur → Forall (λ c, c ≠ sep) (pop (split_at sep s cur)).
Proof.
  induction s as [|c s IH]; intros cur Hcur; simpl.
  - unfold pop. simpl. by apply Forall_rev.
  - destruct (Z.eqb_spec c sep) as [->|Hc].
    + rewrite pop_cons by apply split_at_nonempty. by apply IH.
    + apply IH. by constructor.
Qed.

Lemma pop_split_app sep a b : ∀ cur,
  Forall (λ c, c ≠ sep) b → pop (split_at sep (a ++ sep :: b) cur) = b.
Proof.
  induction a as [|c a IH]; intros cur Hb; simpl.
  - rewrite Z.eqb_refl. rewrite pop_cons by apply split_at_nonempty.
    by rewrite split_at_no_sep.
  - destruct (c =? sep); [rewrite pop_cons by apply split_at_nonempty|]; by apply IH.
Qed.

(** X7: [getFileExtension] returns between one and four units without a
    dot, whatever the url and also when the url is refused.  For a path
    that ends in a dot and then one to four units without a dot, it returns
    those units. *)
Theorem getFileExtension_bounds (host : Host) (url : jsstring) :
  (1 ≤ length (getFileExtension host url) ≤ 4)%nat ∧
  Forall (λ c, c ≠ 46) (getFileExtension host url) ∧
  (∀ stem ext,
     pathname host url = inr (stem ++ 46 :: ext) →
     Forall (λ c, c ≠ 46) ext → (1 ≤ length ext ≤ 4)%nat →
     getFileExtension host url = ext).
Proof.
  assert (Forall (λ c, c ≠ 46) (js "docx")) as Hdocx.
  { vm_compute. repeat constructor; discriminate. }
  unfold getFileExtension. destruct (pathname host url) as [e|p].
  { split; [vm_compute; lia|]. split; [done|]. intros stem ext [=]. }
  split; [|split].
  - destruct (pop (split p 46)) as [|c ext]; [vm_compute; lia|]. cbn [truthy andb].
    destruct (Nat.leb_spec (length (c :: ext)) 4); [simpl in *; lia | vm_compute; lia].
  - pose proof (pop_split_no_sep 46 p [] ltac:(constructor)) as Hp.
    fold (split p 46) in Hp.
    destruct (pop (split p 46)) as [|c ext]; [done|]. cbn [truthy andb].
    by destruct (length (c :: ext) <=? 4)%nat.
  - intros stem ext [= ->] Hext Hlen. unfold split. rewrite pop_split_app by done.
    destruct ext as [|c ext]; [simpl in Hlen; lia|]. cbn [truthy andb].
    destruct (Nat.leb_spec (length (c :: ext)) 4); [done | lia].
Qed.

Lemma getFileExtension_bounds_witness :
  getFileExtension host_report (js "https://x.test/files/report.pdf") = js "pdf".
Proof.
  apply (proj2 (proj2 (getFileExtension_bounds host_report (js "https://x.test/files/report.pdf")))
           (js "/files/report") (js "pdf")).
  - reflexivity.
  - vm_compute. repeat constructor; discriminate.
  - vm_compute. lia.
Defined.

(** ** The kinds of templates *)

Section Detect.
Context (toLowerCase : jsstring → jsstring).

#[local] Arguments includes : simpl never.
#[local] Arguments js : simpl never.

(** X8: a message whose lower-case form holds [razılaşma] is detected as a
    vacation, a business trip or a contract, and never as a memorandum,
    though the word is among the keywords of the memorandum: the contract,
    which lists it too, comes first. *)
Theorem detect_shadowed_keyword (message : jsstring) :
  includes (toLowerCase message) (js "razılaşma") = true →
  detect toLowerCase message = Some (js "vacation") ∨
  detect toLowerCase message = Some (js "business_trip") ∨
  detect toLowerCase message = Some (js "contract").
Proof.
  intros H. unfold detect, TEMPLATE_TYPES. cbn [List.find snd keywords].
  destruct (some_included _ _); [by left|].
  destruct (some_included _ _); [by right; left|].
  destruct (some_included _ _) eqn:E; [by right; right|].
  unfold some_included in E. cbn [existsb] in E. rewrite H in E.
  by rewrite !orb_true_r in E.
Qed.
End Detect.

Lemma detect_shadowed_keyword_witness :
  detect toLowerCase_latin (js "Razılaşma nümunəsi") = Some (js "vacation") ∨
  detect toLowerCase_latin (js "Razılaşma nümunəsi") = Some (js "business_trip") ∨
  detect toLowerCase_latin (js "Razılaşma nümunəsi") = Some (js "contract").
Proof.
  apply (detect_shadowed_keyword toLowerCase_latin (js "Razılaşma nümunəsi")).
  vm_compute. reflexivity.
Defined.

(** ** The links that the dashboard finds *)

Lemma char_eqb_letter ic a c :
  97 ≤ a ≤ 122 → char_eqb ic a c = true → c = a ∨ c = a - 32.
Proof.
  intros Ha. unfold char_eqb. destruct ic; intros H%Z.eqb_eq; [|by left].
  revert H. unfold canonicalize.
  repeat match goal with
         | |- context [if ?b then _ else _] => destruct b eqn:?
         end; lia.
Qed.

Lemma not_space_class ic c :
  atom_matches ic (ACls true [CSpace; CChar 10]) c = true → is_space c = false.
Proof.
  cbn [atom_matches existsb item_matches xorb]. intros H%negb_true_iff.
  by apply orb_false_elim in H as [H _].
Qed.

Lemma htp_class ic c :
  atom_matches ic (ACls false (chars "http")) c = true → is_htp c = true ∧ is_space c = false.
Proof.
  change (chars "http") with [CChar 104; CChar 116; CChar 116; CChar 112].
  cbn [atom_matches existsb item_matches xorb]. rewrite orb_false_r.
  intros H. repeat apply orb_prop in H as [H|H];
    (apply char_eqb_letter in H as [-> | ->]; [by vm_compute..|lia]).
Qed.

Lemma url_group_shape i s caps j rest' caps' :
  matches true (Seq (Atom (ACls false (chars "http"))) (Plus (ACls true [CSpace; CChar 10])))
    i s caps j rest' caps' →
  head_is is_htp (take (j - i) s) = true ∧ (2 ≤ length (take (j - i) s))%nat ∧
  Forall (λ c, is_space c = false) (take (j - i) s).
Proof.
  unfold Plus. cbn [matches].
  intros (k & restk & capsk & (c & -> & [Hc Hsp]%htp_class & -> & ->) &
          (k2 & restk2 & capsk2 & (c2 & -> & Hc2%not_space_class & -> & ->) &
           (n & Hn & Hall & -> & -> & ->))).
  replace (S (S i) + n - i)%nat with (S (S n)) by lia.
  cbn [take head_is length]. split; [done|]. split; [lia|].
  repeat (constructor; [done|]).
  apply Forall_forall. intros x Hx. rewrite forallb_forall in Hall.
  eapply not_space_class, Hall. by apply list_elem_of_In.
Qed.

Lemma not_char_class a c :
  atom_matches false (ACls true [CChar a]) c = true → c ≠ a.
Proof.
  cbn [atom_matches existsb item_matches xorb]. unfold char_eqb.
  rewrite orb_false_r. intros H%negb_true_iff%Z.eqb_neq. congruence.
Qed.

Lemma not_char_class_all a s :
  forallb (atom_matches false (ACls true [CChar a])) s = true → Forall (λ c, c ≠ a) s.
Proof.
  rewrite forallb_forall. intros H. apply Forall_forall. intros x Hx%list_elem_of_In.
  by apply not_char_class, H.
Qed.

Lemma plus_not_char_shape a i s caps j rest' caps' :
  matches false (Plus (ACls true [CChar a])) i s caps j rest' caps' →
  take (j - i) s ≠ [] ∧ Forall (λ c, c ≠ a) (take (j - i) s).
Proof.
  unfold Plus. cbn [matches].
  intros (k & restk & capsk & (c & -> & Hc%not_char_class & -> & ->) &
          (n & Hn & Hall%not_char_class_all & -> & -> & ->)).
  replace (S i + n - i)%nat with (S n) by lia. cbn [take]. split; [done|].
  by constructor.
Qed.

Lemma markdown_url_shape i s caps j rest' caps' :
  matches false (Seqs [lit "http"; Opt (Atom (ACls false (chars "s"))); lit "://";
                       Plus (ACls true (chars ")"))]) i s caps j rest' caps' →
  startsWith (take (j - i) s) (js "http") = true ∧
  Forall (λ c, c ≠ 41) (take (j - i) s).
Proof.
  unfold lit, Opt, Plus.
  change (js "http") with [104; 116; 116; 112].
  change (js "://") with [58; 47; 47]. change (chars "s") with [CChar 115].
  change (chars ")") with [CChar 41].
  cbn [matches Seqs Lit].
  intros H. break_matches.
  repeat match goal with
         | H : atom_matches false (AChr _) _ = true |- _ =>
           cbn [atom_matches] in H; unfold char_eqb in H; apply Z.eqb_eq in H; subst
         | H : atom_matches false (ACls true _) _ = true |- _ => apply not_char_class in H
         | H : forallb _ _ = true |- _ => apply not_char_class_all in H
         end.
  match goal with H : _ ∨ _ |- _ => destruct H as [H|H] end; break_matches.
  - match goal with
    | H : atom_matches false (ACls false _) ?c = true |- _ =>
      cbn [atom_matches existsb item_matches xorb] in H; unfold char_eqb in H;
        rewrite orb_false_r in H; apply Z.eqb_eq in H; subst
    end.
    match goal with H : Forall _ (take ?n _) |- _ =>
      replace (S (S (S (S (S (S (S (S (S i)))))))) + n - i)%nat
        with (S (S (S (S (S (S (S (S (S n))))))))) by lia end.
    cbn [take startsWith]. split; [done|]. repeat (constructor; [done|]). done.
  - match goal with H : Forall _ (take ?n _) |- _ =>
      replace (S (S (S (S (S (S (S (S i))))))) + n - i)%nat
        with (S (S (S (S (S (S (S (S n)))))))) by lia end.
    cbn [take startsWith]. split; [done|]. repeat (constructor; [done|]). done.
Qed.

Lemma is_match_capture re s mt n u :
  is_match re s mt → match_get mt (S n) = Some u →
  ∃ body i rest caps j rest' caps',
    body ∈ group_bodies (S n) (source re) ∧
    matches (ignoreCase re) body i rest caps j rest' caps' ∧ u = take (j - i) rest.
Proof.
  intros (_ & rest' & Hm & _) Hu. simpl in Hu.
  destruct (matches_capture _ _ _ _ _ _ _ _ _ _ Hm Hu)
    as [?|(b & d & i1 & j1 & rest1 & c1 & c1' & Hin & Hd & Hm' & ->)]; [done|].
  by exists b, i1, (drop d (drop (m_index mt) s)), c1, j1, rest1, c1'.
Qed.

Lemma is_match_unset re s mt n :
  is_match re s mt → group_bodies (S n) (source re) = [] → match_get mt (S n) = None.
Proof.
  intros Hm Hb. destruct (match_get mt (S n)) as [u|] eqn:Hu; [|done].
  destruct (is_match_capture _ _ _ _ _ Hm Hu) as (b & ? & ? & ? & ? & ? & ? & Hin & _).
  rewrite Hb in Hin. by apply elem_of_nil in Hin.
Qed.

Lemma dashboard_loop_body re text_ mt links :
  re ∈ SmartDashboard.patterns → is_match re text_ mt →
  ∃ l, SmartDashboard.loop_body mt links = links ++ [l] ∧ found_in text_ l.
Proof.
  intros Hre Hm. destruct (is_match_located _ _ _ Hm) as (Hin & Hlen & Hcaps).
  assert (1 ≤ minlen (source re))%nat as Hmin.
  { unfold SmartDashboard.patterns in Hre.
    repeat (apply elem_of_cons in Hre as [-> | Hre]); [..|by apply elem_of_nil in Hre];
      vm_compute; lia. }
  assert (m_0 mt ≠ []) as Hne.
  { intros E. rewrite E in Hlen. simpl in Hlen. lia. }
  unfold SmartDashboard.patterns in Hre.
  apply elem_of_cons in Hre as [-> | Hre].
  - (* the markdown pattern *)
    destruct (is_match_sets _ _ _ 1 Hm eq_refl) as [u1 Hu1].
    destruct (is_match_sets _ _ _ 2 Hm eq_refl) as [u2 Hu2].
    destruct (is_match_capture _ _ _ _ _ Hm Hu1) as (b1 & i1 & r1 & c1 & j1 & r1' & c1' & Hb1 & Hm1 & ->).
    destruct (is_match_capture _ _ _ _ _ Hm Hu2) as (b2 & i2 & r2 & c2 & j2 & r2' & c2' & Hb2 & Hm2 & ->).
    apply list_elem_of_singleton in Hb1 as ->. apply list_elem_of_singleton in Hb2 as ->.
    cbn [ignoreCase] in Hm1, Hm2.
    apply plus_not_char_shape in Hm1 as [Ht1 Ht2].
    apply markdown_url_shape in Hm2 as [Hs2 Hf2].
    destruct (Hcaps _ _ Hu2) as [Hin2 _].
    unfold SmartDashboard.loop_body. rewrite Hu1, Hu2.
    destruct (take (j2 - i2) r2) as [|c u] eqn:E; [done|]. cbn [truthy default].
    eexists. split; [reflexivity|]. repeat split; done.
  - assert (ignoreCase re = true ∧ group_bodies 2 (source re) = [] ∧
            sets 1 (source re) = true ∧
            group_bodies 1 (source re) = [Seq (Atom (ACls false (chars "http")))
                                              (Plus (ACls true [CSpace; CChar 10]))])
      as (Hic & Hb2 & Hs1 & Hb1).
    { repeat (apply elem_of_cons in Hre as [-> | Hre]); [..|by apply elem_of_nil in Hre];
        repeat split; vm_compute; reflexivity. }
    pose proof (is_match_unset _ _ _ 1 Hm Hb2) as Hu2.
    destruct (is_match_sets _ _ _ 1 Hm Hs1) as [u1 Hu1].
    destruct (is_match_capture _ _ _ _ _ Hm Hu1) as (b1 & i1 & r1 & c1 & j1 & r1' & c1' & Hin1 & Hm1 & ->).
    rewrite Hb1 in Hin1. apply list_elem_of_singleton in Hin1 as ->. rewrite Hic in Hm1.
    apply url_group_shape in Hm1 as (Hh & Hl & Hsp).
    destruct (Hcaps _ _ Hu1) as [Hin1 _].
    unfold SmartDashboard.loop_body. rewrite Hu1, Hu2.
    destruct (take (j1 - i1) r1) as [|c u] eqn:E; [simpl in Hl; lia|]. cbn [truthy default].
    eexists. split; [reflexivity|]. repeat split; done.
Qed.

Lemma SmartDashboard_while_exec_found re text_ :
  re ∈ SmartDashboard.patterns →
  ∀ fuel lastIndex links links',
    Forall (found_in text_) links →
    SmartDashboard.while_exec fuel re text_ lastIndex links = Done links' →
    Forall (found_in text_) links'.
Proof.
  intros Hre. assert (global re = true) as Hg.
  { unfold SmartDashboard.patterns in Hre.
    repeat (apply elem_of_cons in Hre as [-> | Hre]); [..|by apply elem_of_nil in Hre]; done. }
  induction fuel as [|fuel IH]; intros li links links' Hl; [done|]. simpl.
  destruct (exec re text_ li) as [[mt|] li'] eqn:He; [|by intros [= <-]].
  apply exec_is_match in He as (Hm & _); [|done].
  destruct (dashboard_loop_body re text_ mt links Hre Hm) as (l & -> & Hf).
  apply IH. apply Forall_app. split; [done|]. by constructor.
Qed.

Lemma SmartDashboard_forEach_found text_ fuel :
  ∀ ps links links',
    ps ⊆ SmartDashboard.patterns →
    Forall (found_in text_) links →
    SmartDashboard.forEach_pattern fuel ps text_ links = Done links' →
    Forall (found_in text_) links'.
Proof.
  induction ps as [|re ps IH]; intros links links' Hps Hl; simpl; [by intros [= <-]|].
  destruct (SmartDashboard.while_exec fuel re text_ O links) as [links1| |] eqn:Hw; try done.
  simpl. apply IH.
  - intros x Hx. apply Hps. by right.
  - eapply SmartDashboard_while_exec_found; [|exact Hl|exact Hw]. apply Hps. by left.
Qed.

(** X9: the dashboard's [parseDownloadLinks] returns on every text, and of
    each link it returns: the [fullMatch] is not empty and occurs in the
    text, and the [url] occurs in the [fullMatch]; a markdown link has a
    label that is not empty and holds no closing bracket, and a url that
    starts with [http] and holds no closing parenthesis; a direct link has
    the label Yüklə and a url of two units or more without white space that
    starts with one of the letters h, t and p in either case. *)
Theorem SmartDashboard_parseDownloadLinks_found (text_ : jsstring) :
  ∃ links, SmartDashboard.parseDownloadLinks text_ = Done links ∧
           Forall (found_in text_) links.
Proof.
  destruct (SmartDashboard_forEach_done text_ (S (length text_)) ltac:(lia)
              SmartDashboard.patterns [] ltac:(by vm_compute)) as [links H].
  exists links. split; [exact H|].
  eapply SmartDashboard_forEach_found; [| |exact H]; done.
Qed.

(** ** The content of a message, processed *)

Lemma parseDownloadLinks_candidates content :
  ∃ links, parseDownloadLinks content = Done links ∧
    ∀ l, l ∈ links →
      ∃ p mt u, p ∈ DOWNLOAD_LINK_PATTERNS ∧ is_match (regex_ p) content mt ∧
                candidate p mt = Some (u, l).
Proof.
  unfold parseDownloadLinks. rewrite parseDownloadLinks_fuel_first_seen by lia.
  eexists. split; [done|]. intros l ([u l'] & -> & [Hin _]%first_seen_subset)%list_elem_of_fmap.
  apply candidates_inv in Hin as (p & mt & Hp & Hmt & Hc).
  pose proof sortedPatterns_ok as Hok. rewrite forallb_forall in Hok.
  pose proof Hp as Hp'. apply list_elem_of_In, Hok in Hp'.
  apply andb_prop in Hp' as [[Hg Hmin%Nat.leb_le]%andb_prop _].
  destruct (all_matches_spec (regex_ p) content (S (length content)) Hg Hmin) as [_ Hms]; [lia|].
  rewrite Forall_forall in Hms. rewrite sortedPatterns_eq in Hp.
  exists p, mt, u. auto.
Qed.

Lemma replace_first_removes p s :
  includes s p = true → (length (replace_first s p []) + length p = length s)%nat.
Proof.
  intros H. destruct (proj2 (replace_first_spec p s) H) as (pre & post & -> & -> & _).
  rewrite !length_app. lia.
Qed.

Lemma clean_length s :
  (length (trim (replace_all whitespace_regex (js " ")
                   (replace_all newlines_regex [10%Z; 10%Z] s))) ≤ length s)%nat.
Proof.
  etrans; [apply trim_length|].
  unfold replace_all. cbn [source ignoreCase whitespace_regex newlines_regex].
  etrans; [apply replace_runs_length; (done || vm_compute; lia)|].
  apply replace_runs_length; (done || simpl; lia).
Qed.

(** X10: [processContent] returns for every content, with the links that
    [parseDownloadLinks] finds in it.  When it reports downloads, the clean
    content is shorter than the content, by the length of the first link's
    match at least; when it reports none, the clean content is the content
    with its white space cleaned. *)
Theorem processContent_removes (toLowerCase : jsstring → jsstring) (content : jsstring) :
  ∃ pc, processContent toLowerCase content = Done pc ∧
    parseDownloadLinks content = Done (downloadLinks pc) ∧
    match downloadLinks pc with
    | [] => hasDownloads pc = false ∧ cleanContent_ pc = removeDownloadLinks content []
    | l :: _ =>
      hasDownloads pc = true ∧ fullMatch l ≠ [] ∧
      (length (cleanContent_ pc) + length (fullMatch l) ≤ length content)%nat
    end.
Proof.
  destruct (parseDownloadLinks_candidates content) as (links & Hp & Hl).
  unfold processContent. rewrite Hp. simpl. eexists. split; [reflexivity|].
  cbn [downloadLinks hasDownloads cleanContent_]. split; [done|].
  destruct links as [|l links]; [done|]. split; [done|].
  destruct (Hl l ltac:(by left)) as (p & mt & u & Hin & Hm & Hc).
  destruct (candidate_located p content mt u l Hin Hm Hc) as (Hne & Hinc & _).
  split; [done|]. unfold removeDownloadLinks. etrans; [apply Nat.add_le_mono_r, clean_length|].
  unfold strip_links. cbn [fold_left]. fold (strip_links (if truthy (Some (fullMatch l))
    then replace_first content (fullMatch l) [] else content) links).
  etrans; [apply Nat.add_le_mono_r, strip_links_length|].
  destruct (fullMatch l) as [|c fm] eqn:E; [done|]. cbn [truthy].
  by rewrite replace_first_removes.
Qed.

(** ** The message that the dashboard renders *)

Lemma SmartDashboard_strip_length (links : list SmartDashboard.Link) : ∀ content,
  (length (fold_left (λ c link, replace_first c (SmartDashboard.fullMatch link) [])
                     links content) ≤ length content)%nat.
Proof.
  induction links as [|l links IH]; intros content; simpl; [done|].
  etrans; [apply IH|]. apply replace_first_length.
Qed.

(** X11: [renderMessageWithDownloadLinks] returns for every content, with
    the links that the dashboard finds in it.  The text that it renders has
    no white space at its start or end; without links it is the content
    trimmed, and with links it is shorter than the content, by the length of
    the first link's match at least. *)
Theorem renderMessageWithDownloadLinks_clean (content : jsstring) :
  ∃ clean links,
    SmartDashboard.renderMessageWithDownloadLinks content = Done (clean, links) ∧
    SmartDashboard.parseDownloadLinks content = Done links ∧
    head_is is_space clean = false ∧ last_is is_space clean = false ∧
    match links with
    | [] => clean = trim content
    | l :: _ =>
      SmartDashboard.fullMatch l ≠ [] ∧
      (length clean + length (SmartDashboard.fullMatch l) ≤ length content)%nat
    end.
Proof.
  destruct (SmartDashboard_forEach_done content (S (length content)) ltac:(lia)
              SmartDashboard.patterns [] ltac:(by vm_compute)) as [links H].
  pose proof H as Hf.
  apply SmartDashboard_forEach_found in Hf; [|done|done].
  exists (SmartDashboard.cleanContent content links), links.
  unfold SmartDashboard.renderMessageWithDownloadLinks, SmartDashboard.parseDownloadLinks,
    SmartDashboard.parseDownloadLinks_fuel.
  rewrite H. split; [done|]. split; [done|].
  unfold SmartDashboard.cleanContent. split; [apply trim_edges|]. split; [apply trim_edges|].
  destruct links as [|l links]; [done|].
  apply Forall_cons in Hf as [(Hne & Hin & _) _]. split; [done|].
  etrans; [apply Nat.add_le_mono_r, trim_length|]. cbn [fold_left].
  etrans; [apply Nat.add_le_mono_r, SmartDashboard_strip_length|].
  by rewrite replace_first_removes.
Qed.
